(** * turbocookedrabbit: the RabbitService orchestrator and its messages

    A shallow embedding of [pkg/tcr/rabbitservice.go] and of the message
    types that accompany it ([PublishReceipt], [ReceivedMessage]).

    Conventions of the embedding:
    - a [uint64] is a [Z] in [0, 2^64); [atomic.AddUint64] wraps;
    - a Go [string] is a [string], a [[]byte] is a [list byte];
    - a nilable pointer or interface is an [option];
    - calls into the collaborators (Publisher, Connection Pool, Consumers,
      the AMQP channel) and channel sends are recorded, in program order,
      as a list of [Event]s; what a collaborator answers is given by the
      operations of the [Collaborators] class;
    - a send can block: [Shutdown] and the default receipt loop, which go
      on to other work after a send, are [Step]s over the state of the
      channels they send on, and stop where a send finds no taker;
    - the background loops read a flag and poll a channel that other
      goroutines write: what each iteration observes is supplied as a
      list of [Tick]s. *)

From Stdlib Require Import ZArith List Lia DecimalString Permutation.
From Stdlib Require Import DecimalN Sorted Ascii.
From stdpp Require Import base gmap strings list fin_maps.

Local Open Scope string_scope.
Local Open Scope list_scope.
Local Open Scope Z_scope.

(** ** Machine integers and durations *)

Definition uint64_modulus : Z := 2 ^ 64.

(** [atomic.AddUint64(&x, delta)]: the new value, modulo [2^64]. *)
Definition AddUint64 (x delta : Z) : Z := (x + delta) mod uint64_modulus.

(** [time.Duration] counts nanoseconds. *)
Definition Millisecond : Z := 1000000.
Definition Second : Z := 1000 * Millisecond.

(** The verb [%d] of [fmt] applied to an unsigned integer. *)
Definition fmt_d (n : Z) : string :=
  NilZero.string_of_uint (N.to_uint (Z.to_N n)).

(** ** Errors

    Go's [error] is an interface value.  [errors.New] and [fmt.Errorf]
    allocate a fresh error carrying a message, so an error made by the
    orchestrator is never one that a collaborator returns.  What a
    collaborator reports is a [failure]; the orchestrator passes it on as
    [collaboratorError]. *)
Definition failure : Type := string.

Inductive error : Type :=
| errorsNew (msg : string)
| collaboratorError (reported : failure).

Definition fmtErrorf (prefix : string) (n : Z) (suffix : string) : error :=
  errorsNew (prefix +:+ fmt_d n +:+ suffix).

(** ** Letters and receipts *)

Record Envelope : Type := {
  Exchange : string;
  RoutingKey : string;
  ContentType : string;
  Mandatory : bool;
  Immediate : bool;
  DeliveryMode : Z
}.

Record Letter : Type := {
  LetterID : Z;
  Body : list Byte.byte;
  LetterEnvelope : Envelope
}.

(** [PublishReceipt] of the message types; its [LetterID] field is
    [ReceiptLetterID] here. *)
Record PublishReceipt : Type := {
  ReceiptLetterID : Z;
  FailedLetter : option Letter;
  Success : bool;
  Error : option error
}.

(** ** Types of the collaborators

    Their declarations are not part of the orchestrator's file: they are
    parameters of the development. [Value] is what an [interface{}] holds
    when it is not nil; [Handler] is a function that takes a receipt;
    [ConsumerCore] is a Consumer without its [ConsumerName]. *)
Class External : Type := {
  Value : Type;
  PoolConfig : Type;
  ConsumerConfig : Type;
  CompressionConfig : Type;
  ConnectionPool : Type;
  Publisher : Type;
  Topologer : Type;
  ConsumerCore : Type;
  Handler : Type
}.

Record EncryptionConfig : Type := {
  Enabled : bool;
  Hashkey : list Byte.byte;
  TimeConsideration : Z;
  MemoryMultiplier : Z;
  Threads : Z
}.

Section Orchestrator.

Context {X : External}.

Record Consumer : Type := {
  ConsumerName : string;
  consumerCore : ConsumerCore
}.

Record RabbitSeasoning : Type := {
  SeasoningPoolConfig : PoolConfig;
  ConsumerConfigs : gmap string ConsumerConfig;
  SeasoningCompressionConfig : CompressionConfig;
  SeasoningEncryptionConfig : EncryptionConfig
}.

Record RabbitService : Type := {
  Config : RabbitSeasoning;
  ServiceConnectionPool : ConnectionPool;
  ServiceTopologer : Topologer;
  ServicePublisher : Publisher;
  encryptionConfigured : bool;
  consumers : gmap string Consumer;
  shutdown : bool;
  letterCount : Z;
  monitorSleepInterval : Z
}.

(** The goroutines started by the constructor. *)
Inductive Task : Type :=
| GoCollectConsumerErrors
| GoCollectAutoPublisherErrors
| GoMonitorForShutdown
| GoInvokeProcessPublishReceipts (processReceipts : Handler)
| GoProcessPublishReceipts.

(** What the orchestrator does to the outside, in program order. *)
Inductive Event : Type :=
| PublisherPublish (letter : Letter)
| PublisherPublishWithConfirmation (letter : Letter) (timeout : Z)
| PublisherQueueLetter (letter : Letter)
| PublisherStartAutoPublishing
| PublisherStopAutoPublish
| CentralErrSend (err : error)
| ShutdownSignalSend (b : bool)
| Sleep (d : Z)
| ConsumerStopConsuming (name : string) (consumer : Consumer)
    (immediate flushMessages : bool)
| ConnectionPoolShutdown
| GetHashWithArgonCall (passphrase salt : string)
    (timeConsideration multiplier threads hashLength : Z)
| ProcessReceiptsCall (processReceipts : Handler) (receipt : PublishReceipt)
| Go (task : Task).

(** The operations of the collaborators that the orchestrator calls. *)
Class Collaborators : Type := {
  NewConnectionPool : PoolConfig -> failure + ConnectionPool;
  NewPublisherWithConfig :
    RabbitSeasoning -> ConnectionPool -> failure + Publisher;
  NewTopologer : ConnectionPool -> Topologer;
  NewConsumerFromConfig : ConsumerConfig -> ConnectionPool -> failure + Consumer;
  osHostname : failure + string;
  GetHashWithArgon : string -> string -> Z -> Z -> Z -> Z -> list Byte.byte;
  CreatePayload :
    option Value -> CompressionConfig -> EncryptionConfig ->
    failure + list Byte.byte;
  CreateWrappedPayload :
    option Value -> Z -> string -> CompressionConfig -> EncryptionConfig ->
    failure + list Byte.byte;
  StopConsuming : Consumer -> bool -> bool -> option failure
}.

Context {C : Collaborators}.

Definition isNil {A : Type} (x : option A) : bool :=
  match x with None => true | Some _ => false end.

Definition setLetterCount (n : Z) (rs : RabbitService) : RabbitService :=
  {| Config := Config rs;
     ServiceConnectionPool := ServiceConnectionPool rs;
     ServiceTopologer := ServiceTopologer rs;
     ServicePublisher := ServicePublisher rs;
     encryptionConfigured := encryptionConfigured rs;
     consumers := consumers rs;
     shutdown := shutdown rs;
     letterCount := n;
     monitorSleepInterval := monitorSleepInterval rs |}.

(** ** Publish operations *)

(** The payload construction shared, line for line, by both entry points. *)
Definition buildPayload (input : option Value) (currentCount : Z)
    (wrapPayload : bool) (metadata : string) (rs : RabbitService)
  : failure + list Byte.byte :=
  if wrapPayload then
    CreateWrappedPayload input currentCount metadata
      (SeasoningCompressionConfig (Config rs))
      (SeasoningEncryptionConfig (Config rs))
  else
    CreatePayload input
      (SeasoningCompressionConfig (Config rs))
      (SeasoningEncryptionConfig (Config rs)).

Definition newLetter (currentCount : Z) (data : list Byte.byte)
    (exchangeName routingKey : string) : Letter :=
  {| LetterID := currentCount;
     Body := data;
     LetterEnvelope :=
       {| Exchange := exchangeName;
          RoutingKey := routingKey;
          ContentType := "application/json";
          Mandatory := false;
          Immediate := false;
          DeliveryMode := 2 |} |}.

Definition PublishWithConfirmation (input : option Value)
    (exchangeName routingKey : string) (wrapPayload : bool) (metadata : string)
    (rs : RabbitService) : option error * RabbitService * list Event :=
  if isNil input || (String.eqb exchangeName EmptyString && String.eqb routingKey EmptyString) then
    (Some (errorsNew
       "can't have a nil body or an empty exchangename with empty routing key"),
     rs, [])
  else
    let currentCount := letterCount rs in
    let rs := setLetterCount (AddUint64 (letterCount rs) 1) rs in
    match buildPayload input currentCount wrapPayload metadata rs with
    | inl err => (Some (collaboratorError err), rs, [])
    | inr data =>
        (None, rs,
         [PublisherPublishWithConfirmation
            (newLetter currentCount data exchangeName routingKey)
            (Millisecond * 300)])
    end.

Definition Publish (input : option Value)
    (exchangeName routingKey : string) (wrapPayload : bool) (metadata : string)
    (rs : RabbitService) : option error * RabbitService * list Event :=
  if isNil input || (String.eqb exchangeName EmptyString && String.eqb routingKey EmptyString) then
    (Some (errorsNew
       "can't have a nil input or an empty exchangename with empty routing key"),
     rs, [])
  else
    let currentCount := letterCount rs in
    let rs := setLetterCount (AddUint64 (letterCount rs) 1) rs in
    match buildPayload input currentCount wrapPayload metadata rs with
    | inl err => (Some (collaboratorError err), rs, [])
    | inr data =>
        (None, rs,
         [PublisherPublish (newLetter currentCount data exchangeName routingKey)])
    end.

(** What the guard of both entry points tests. *)
Definition invalidArguments (input : option Value)
    (exchangeName routingKey : string) : Prop :=
  input = None \/ (exchangeName = EmptyString /\ routingKey = EmptyString).

(** ** Consumers and the constructor *)

Definition setConsumerName (name : string) (consumer : Consumer) : Consumer :=
  {| ConsumerName := name; consumerCore := consumerCore consumer |}.

(** [createConsumers]: [order] lists the entries of [consumerConfigs] in the
    order in which [range] visits them, [registry] is [rs.consumers]. *)
Fixpoint createConsumers (order : list (string * ConsumerConfig))
    (pool : ConnectionPool) (registry : gmap string Consumer)
  : failure + gmap string Consumer :=
  match order with
  | [] => inr registry
  | (consumerName, consumerConfig) :: rest =>
      match NewConsumerFromConfig consumerConfig pool with
      | inl err => inl err
      | inr consumer =>
          let consumer :=
            match osHostname with
            | inr hostName =>
                setConsumerName (hostName +:+ "-" +:+ ConsumerName consumer) consumer
            | inl _ => consumer
            end in
          createConsumers rest pool (<[consumerName := consumer]> registry)
      end
  end.

Definition setHashkey (key : list Byte.byte) (e : EncryptionConfig)
  : EncryptionConfig :=
  {| Enabled := Enabled e;
     Hashkey := key;
     TimeConsideration := TimeConsideration e;
     MemoryMultiplier := MemoryMultiplier e;
     Threads := Threads e |}.

Definition setEncryptionConfig (e : EncryptionConfig) (config : RabbitSeasoning)
  : RabbitSeasoning :=
  {| SeasoningPoolConfig := SeasoningPoolConfig config;
     ConsumerConfigs := ConsumerConfigs config;
     SeasoningCompressionConfig := SeasoningCompressionConfig config;
     SeasoningEncryptionConfig := e |}.

(** The test that guards the key derivation. *)
Definition encryptionRequested (config : RabbitSeasoning)
    (passphrase salt : string) : bool :=
  Enabled (SeasoningEncryptionConfig config)
  && (0 <? Z.of_nat (String.length passphrase))%Z
  && (0 <? Z.of_nat (String.length salt))%Z.

(** The goroutine that monitors the publish events. *)
Definition receiptTask (processPublishReceipts : option Handler) : Task :=
  match processPublishReceipts with
  | Some processReceipts => GoInvokeProcessPublishReceipts processReceipts
  | None => GoProcessPublishReceipts
  end.

(** [NewRabbitService]. The test of [err] that follows [NewTopologer] in
    the source reads the [err] of the Publisher's construction, which is nil
    there: it never fires. The struct is filled in here once its parts are
    known; the source fills [consumers], [Hashkey] and
    [encryptionConfigured] in after allocating it. *)
Definition NewRabbitService (config : RabbitSeasoning)
    (passphrase salt : string) (processPublishReceipts : option Handler)
    (order : list (string * ConsumerConfig))
  : (error + RabbitService) * list Event :=
  match NewConnectionPool (SeasoningPoolConfig config) with
  | inl err => (inl (collaboratorError err), [])
  | inr connectionPool =>
  match NewPublisherWithConfig config connectionPool with
  | inl err => (inl (collaboratorError err), [])
  | inr publisher =>
  let topologer := NewTopologer connectionPool in
  match createConsumers order connectionPool ∅ with
  | inl err => (inl (collaboratorError err), [])
  | inr registry =>
  let e := SeasoningEncryptionConfig config in
  let derive := encryptionRequested config passphrase salt in
  let config' :=
    if derive then
      setEncryptionConfig
        (setHashkey
           (GetHashWithArgon passphrase salt (TimeConsideration e)
              (MemoryMultiplier e) (Threads e) 32) e)
        config
    else config in
  let rs :=
    {| Config := config';
       ServiceConnectionPool := connectionPool;
       ServiceTopologer := topologer;
       ServicePublisher := publisher;
       encryptionConfigured := derive;
       consumers := registry;
       shutdown := false;
       letterCount := 0;
       monitorSleepInterval := 200 * Millisecond |} in
  (inr rs,
   (if derive then
      [GetHashWithArgonCall passphrase salt (TimeConsideration e)
         (MemoryMultiplier e) (Threads e) 32]
    else [])
   ++ [Go GoCollectConsumerErrors;
       Go GoCollectAutoPublisherErrors;
       Go GoMonitorForShutdown;
       Go (receiptTask processPublishReceipts);
       PublisherStartAutoPublishing])
  end end end.

(** ** Sends that block

    [rs.centralErr] is made without a buffer: a send on it returns once a
    reader of [CentralErr()] has taken the value, and the goroutine that
    sends goes no further until then. [rs.shutdownSignal] has room for one
    value: a send on it returns at once if the room is free and blocks
    otherwise. [Channels] says how many values the readers will take from
    the goroutine at hand, and whether the signal has room; a [Step] gives
    the events that the goroutine gets done, in program order, the channels
    afterwards, and whether it is stuck in a send. *)
Record Channels : Type := {
  centralErrTaken : nat;
  shutdownSignalRoom : bool
}.

Inductive Progress : Type :=
| Unblocked
| BlockedOnCentralErr (err : error)
| BlockedOnShutdownSignal (b : bool).

Definition Step : Type := Channels -> list Event * Channels * Progress.

Definition skip : Step := fun ch => ([], ch, Unblocked).

Definition emit (ev : Event) : Step := fun ch => ([ev], ch, Unblocked).

(** [first], and then [next] unless [first] is stuck. *)
Definition andThen (first next : Step) : Step :=
  fun ch =>
    match first ch with
    | (evs, ch', Unblocked) =>
        let '(evs', ch'', progress) := next ch' in (evs ++ evs', ch'', progress)
    | stuck => stuck
    end.

Fixpoint steps (l : list Step) : Step :=
  match l with
  | [] => skip
  | first :: rest => andThen first (steps rest)
  end.

(** [rs.centralErr <- err]. *)
Definition sendCentralErr (err : error) : Step :=
  fun ch =>
    match centralErrTaken ch with
    | O => ([], ch, BlockedOnCentralErr err)
    | S n =>
        ([CentralErrSend err],
         {| centralErrTaken := n; shutdownSignalRoom := shutdownSignalRoom ch |},
         Unblocked)
    end.

(** [rs.shutdownSignal <- b]. *)
Definition sendShutdownSignal (b : bool) : Step :=
  fun ch =>
    if shutdownSignalRoom ch then
      ([ShutdownSignalSend b],
       {| centralErrTaken := centralErrTaken ch; shutdownSignalRoom := false |},
       Unblocked)
    else ([], ch, BlockedOnShutdownSignal b).

(** ** Shutdown

    [order] lists the entries of [rs.consumers] in the order in which
    [range] visits them. *)
Definition stopConsumer (entry : string * Consumer) : Step :=
  andThen (emit (ConsumerStopConsuming entry.1 entry.2 true true))
    match StopConsuming entry.2 true true with
    | Some err => sendCentralErr (collaboratorError err)
    | None => skip
    end.

Definition Shutdown (stopConsumers : bool) (order : list (string * Consumer))
    (rs : RabbitService) : Step :=
  steps
    [emit PublisherStopAutoPublish;
     emit (Sleep (1 * Second));
     sendShutdownSignal true;
     emit (Sleep (1 * Second));
     if stopConsumers then steps (map stopConsumer order) else skip;
     emit ConnectionPoolShutdown].

(** What one turn of the loop over the consumers gets done when its send,
    if it makes one, is taken; and the failures that the loop has to send. *)
Definition completedStop (entry : string * Consumer) : list Event :=
  ConsumerStopConsuming entry.1 entry.2 true true
  :: match StopConsuming entry.2 true true with
     | Some err => [CentralErrSend (collaboratorError err)]
     | None => []
     end.

Definition stopFailures (order : list (string * Consumer)) : list error :=
  omap (fun entry => collaboratorError <$> StopConsuming entry.2 true true)
    order.

(** ** The receipt loops

    One [Tick] per iteration of a loop: the value of [rs.shutdown] that the
    iteration reads and, for an iteration that gets as far as the [select],
    the receipt taken from [rs.Publisher.PublishReceipts()] ([None]: the
    [default] branch). *)
Record Tick : Type := {
  seesShutdown : bool;
  polled : option PublishReceipt
}.

Fixpoint invokeProcessPublishReceipts (processReceipts : Handler)
    (rs : RabbitService) (ticks : list Tick) : list Event :=
  match ticks with
  | [] => []
  | t :: rest =>
      if seesShutdown t then []
      else
        match polled t with
        | Some receipt =>
            ProcessReceiptsCall processReceipts receipt
            :: invokeProcessPublishReceipts processReceipts rs rest
        | None =>
            Sleep (monitorSleepInterval rs)
            :: invokeProcessPublishReceipts processReceipts rs rest
        end
  end.

(** The default policy for one receipt: the body of the receiving [case].
    The send comes first; the letter is queued once the send has returned. *)
Definition retryOrReport (receipt : PublishReceipt) : Step :=
  if negb (Success receipt) then
    match FailedLetter receipt with
    | Some letter =>
        andThen
          (sendCentralErr
             (fmtErrorf "failed to publish letter " (ReceiptLetterID receipt)
                "... retrying"))
          (emit (PublisherQueueLetter letter))
    | None =>
        sendCentralErr
          (fmtErrorf "failed to publish a letter " (ReceiptLetterID receipt)
             " and unable to retry as a copy of the letter was not received")
    end
  else skip.

Fixpoint processPublishReceipts (rs : RabbitService) (ticks : list Tick)
  : Step :=
  match ticks with
  | [] => skip
  | t :: rest =>
      if seesShutdown t then skip
      else
        match polled t with
        | Some receipt =>
            andThen (retryOrReport receipt) (processPublishReceipts rs rest)
        | None =>
            andThen (emit (Sleep (monitorSleepInterval rs)))
              (processPublishReceipts rs rest)
        end
  end.

(** What a started receipt goroutine gets done. *)
Definition runReceiptTask (task : Task) (rs : RabbitService)
    (ticks : list Tick) (ch : Channels) : list Event :=
  match task with
  | GoInvokeProcessPublishReceipts processReceipts =>
      invokeProcessPublishReceipts processReceipts rs ticks
  | GoProcessPublishReceipts => (processPublishReceipts rs ticks ch).1.1
  | _ => []
  end.

(** The diagnostic that the default policy has for a failed receipt. *)
Definition diagnostic (receipt : PublishReceipt) : error :=
  match FailedLetter receipt with
  | Some _ =>
      fmtErrorf "failed to publish letter " (ReceiptLetterID receipt)
        "... retrying"
  | None =>
      fmtErrorf "failed to publish a letter " (ReceiptLetterID receipt)
        " and unable to retry as a copy of the letter was not received"
  end.


(** The receipts that a loop takes from the receipt source. *)
Fixpoint drained (ticks : list Tick) : list PublishReceipt :=
  match ticks with
  | [] => []
  | t :: rest =>
      if seesShutdown t then []
      else
        match polled t with
        | Some receipt => receipt :: drained rest
        | None => drained rest
        end
  end.

(** ** Reading a trace *)

Definition handedLetter (ev : Event) : option Letter :=
  match ev with
  | PublisherPublish letter => Some letter
  | PublisherPublishWithConfirmation letter _ => Some letter
  | _ => None
  end.

Definition requeuedLetter (ev : Event) : option Letter :=
  match ev with PublisherQueueLetter letter => Some letter | _ => None end.

Definition centralError (ev : Event) : option error :=
  match ev with CentralErrSend err => Some err | _ => None end.

Definition handlerReceipt (ev : Event) : option (Handler * PublishReceipt) :=
  match ev with
  | ProcessReceiptsCall processReceipts receipt => Some (processReceipts, receipt)
  | _ => None
  end.

Definition stoppedConsumer (ev : Event) : option (string * Consumer) :=
  match ev with
  | ConsumerStopConsuming name consumer _ _ => Some (name, consumer)
  | _ => None
  end.

Definition derivedKey (ev : Event) : option (string * string * (Z * Z * Z * Z)) :=
  match ev with
  | GetHashWithArgonCall passphrase salt t m p len =>
      Some (passphrase, salt, (t, m, p, len))
  | _ => None
  end.

Definition startedTask (ev : Event) : option Task :=
  match ev with Go task => Some task | _ => None end.

(** The errors that a step has put to the central error stream, the one it
    is stuck on included. *)
Definition offered (result : list Event * Channels * Progress) : list error :=
  omap centralError result.1.1
  ++ match result.2 with
     | BlockedOnCentralErr err => [err]
     | _ => []
     end.

End Orchestrator.

(** ** Concurrent callers

    [Publish] and [PublishWithConfirmation] touch the shared service twice,
    each time with one atomic operation: [atomic.LoadUint64] and then
    [atomic.AddUint64].  The operations of [sync/atomic] are sequentially
    consistent, so an execution of several callers is an interleaving of
    their steps; a schedule names the caller that moves next. *)
Section Concurrency.

Context {X : External} {C : Collaborators}.

Inductive EntryPoint : Type := ViaPublish | ViaPublishWithConfirmation.

Record Call : Type := {
  entryPoint : EntryPoint;
  callInput : option Value;
  callExchangeName : string;
  callRoutingKey : string;
  callWrapPayload : bool;
  callMetadata : string
}.

Definition callInvalid (call : Call) : Prop :=
  invalidArguments (callInput call) (callExchangeName call) (callRoutingKey call).

(** Where a caller stands in its current call. *)
Inductive Stage : Type :=
| AtEntry
| Loaded (currentCount : Z)
| Added (currentCount : Z).

Record Caller : Type := {
  pending : list Call;
  stage : Stage;
  returned : list (option error)
}.

Record Shared : Type := {
  service : RabbitService;
  trace : list (nat * Event)
}.

Definition validationError (p : EntryPoint) : error :=
  match p with
  | ViaPublish =>
      errorsNew
        "can't have a nil input or an empty exchangename with empty routing key"
  | ViaPublishWithConfirmation =>
      errorsNew
        "can't have a nil body or an empty exchangename with empty routing key"
  end.

Definition handOff (p : EntryPoint) (letter : Letter) : Event :=
  match p with
  | ViaPublish => PublisherPublish letter
  | ViaPublishWithConfirmation =>
      PublisherPublishWithConfirmation letter (Millisecond * 300)
  end.

(** One step of caller [i]: the validation together with the load, the add,
    or the payload construction together with the hand-off. *)
Definition stepCaller (i : nat) (c : Caller) (sh : Shared) : Caller * Shared :=
  match pending c with
  | [] => (c, sh)
  | call :: rest =>
      match stage c with
      | AtEntry =>
          if isNil (callInput call)
             || (String.eqb (callExchangeName call) EmptyString
                 && String.eqb (callRoutingKey call) EmptyString)
          then
            ({| pending := rest; stage := AtEntry;
                returned := returned c ++ [Some (validationError (entryPoint call))] |},
             sh)
          else
            ({| pending := pending c;
                stage := Loaded (letterCount (service sh));
                returned := returned c |},
             sh)
      | Loaded currentCount =>
          ({| pending := pending c; stage := Added currentCount;
              returned := returned c |},
           {| service :=
                setLetterCount (AddUint64 (letterCount (service sh)) 1) (service sh);
              trace := trace sh |})
      | Added currentCount =>
          match buildPayload (callInput call) currentCount (callWrapPayload call)
                  (callMetadata call) (service sh) with
          | inl err =>
              ({| pending := rest; stage := AtEntry;
                  returned := returned c ++ [Some (collaboratorError err)] |},
               sh)
          | inr data =>
              ({| pending := rest; stage := AtEntry;
                  returned := returned c ++ [None] |},
               {| service := service sh;
                  trace :=
                    trace sh
                    ++ [(i,
                         handOff (entryPoint call)
                           (newLetter currentCount data (callExchangeName call)
                              (callRoutingKey call)))] |})
          end
      end
  end.

Definition step (i : nat) (st : list Caller * Shared) : list Caller * Shared :=
  match st.1 !! i with
  | None => st
  | Some c =>
      let r := stepCaller i c st.2 in
      (<[i := r.1]> st.1, r.2)
  end.

Definition run (schedule : list nat) (st : list Caller * Shared)
  : list Caller * Shared :=
  fold_left (fun st i => step i st) schedule st.

Definition newCaller (calls : list Call) : Caller :=
  {| pending := calls; stage := AtEntry; returned := [] |}.

(** The LetterIDs handed to the Publisher, with the caller of each. *)
Definition handedIDs (tr : list (nat * Event)) : list (nat * Z) :=
  omap (fun e => (fun l => (e.1, LetterID l)) <$> handedLetter e.2) tr.

(** A caller running one call alone, through the entry point of the call. *)
Definition callAlone (call : Call) (rs : RabbitService)
  : option error * RabbitService * list Event :=
  match entryPoint call with
  | ViaPublish =>
      Publish (callInput call) (callExchangeName call) (callRoutingKey call)
        (callWrapPayload call) (callMetadata call) rs
  | ViaPublishWithConfirmation =>
      PublishWithConfirmation (callInput call) (callExchangeName call)
        (callRoutingKey call) (callWrapPayload call) (callMetadata call) rs
  end.

(** A sequence of calls made one after the other. *)
Fixpoint callsInTurn (calls : list Call) (rs : RabbitService)
  : list (option error) * RabbitService * list Event :=
  match calls with
  | [] => ([], rs, [])
  | call :: rest =>
      let '(err, rs1, evs1) := callAlone call rs in
      let '(errs, rs2, evs2) := callsInTurn rest rs1 in
      (err :: errs, rs2, evs1 ++ evs2)
  end.

End Concurrency.

(** ** Received messages

    [Acknowledge], [Nack] and [Reject] end in a call on the channel the
    message came from.  The calls made on channels so far are the
    [history]; [answer] is what the channel returns to a call, given the
    history.  Fields that the three operations do not read ([Headers],
    [CorrelationId], [Timestamp], [AMQPDelivery]) are left out. *)
Section Messages.

Context {Channel : Type}.

Inductive ChannelCall : Type :=
| ChannelAck (tag : Z) (multiple : bool)
| ChannelNack (tag : Z) (multiple requeue : bool)
| ChannelReject (tag : Z) (requeue : bool).

Record ReceivedMessage : Type := {
  IsAckable : bool;
  MessageBody : list Byte.byte;
  deliveryTag : Z;
  amqpChan : option Channel
}.

Variable answer :
  list (Channel * ChannelCall) -> Channel -> ChannelCall -> option failure.

Definition onChannel (ch : Channel) (call : ChannelCall)
    (history : list (Channel * ChannelCall))
  : option error * list (Channel * ChannelCall) :=
  (collaboratorError <$> answer history ch call, history ++ [(ch, call)]).

Definition Acknowledge (msg : ReceivedMessage)
    (history : list (Channel * ChannelCall))
  : option error * list (Channel * ChannelCall) :=
  if negb (IsAckable msg) then
    (Some (errorsNew "can't acknowledge, not an ackable message"), history)
  else
    match amqpChan msg with
    | None =>
        (Some (errorsNew "can't acknowledge, internal channel is nil"), history)
    | Some ch => onChannel ch (ChannelAck (deliveryTag msg) false) history
    end.

Definition Nack (msg : ReceivedMessage) (requeue : bool)
    (history : list (Channel * ChannelCall))
  : option error * list (Channel * ChannelCall) :=
  if negb (IsAckable msg) then
    (Some (errorsNew "can't nack, not an ackable message"), history)
  else
    match amqpChan msg with
    | None => (Some (errorsNew "can't nack, internal channel is nil"), history)
    | Some ch => onChannel ch (ChannelNack (deliveryTag msg) false requeue) history
    end.

Definition Reject (msg : ReceivedMessage) (requeue : bool)
    (history : list (Channel * ChannelCall))
  : option error * list (Channel * ChannelCall) :=
  if negb (IsAckable msg) then
    (Some (errorsNew "can't reject, not an ackable message"), history)
  else
    match amqpChan msg with
    | None => (Some (errorsNew "can't reject, internal channel is nil"), history)
    | Some ch => onChannel ch (ChannelReject (deliveryTag msg) requeue) history
    end.

End Messages.

(** ** A concrete set of collaborators

    Used to run the definitions on explicit inputs: values are strings, the
    configuration of a consumer is its name, a consumer whose name ends up
    as [stuck] fails to stop, and the payload pipeline refuses the value
    [unserializable], reverses the bytes when the encryption configuration
    it is handed has [Enabled] set, and prefixes the LetterID's decimal
    digits and the metadata when wrapping. *)
Definition demoTypes : External :=
  {| Value := string;
     PoolConfig := unit;
     ConsumerConfig := string;
     CompressionConfig := unit;
     ConnectionPool := unit;
     Publisher := unit;
     Topologer := unit;
     ConsumerCore := unit;
     Handler := nat |}.

Definition demoEncode (input : option string) (prefix : string)
    (e : EncryptionConfig) : failure + list Byte.byte :=
  match input with
  | None => inl "json: nothing to encode"
  | Some v =>
      if String.eqb v "unserializable" then inl "json: unsupported value"
      else
        let data := String.list_byte_of_string (prefix +:+ v) in
        inr (if Enabled e then rev data else data)
  end.

Definition demoNewConsumer (name : string) : failure + @Consumer demoTypes :=
  if String.eqb name EmptyString then inl "consumer config is missing"
  else inr (@Build_Consumer demoTypes name tt).

Definition demoStop (consumer : @Consumer demoTypes) : option failure :=
  if String.eqb (ConsumerName consumer) "stuck"
  then Some "consumer did not stop" else None.

Definition demoCollaborators : @Collaborators demoTypes :=
  @Build_Collaborators demoTypes
    (fun _ => inr tt)
    (fun _ _ => inr tt)
    (fun _ => tt)
    (fun name _ => demoNewConsumer name)
    (inl "hostname unavailable")
    (fun passphrase salt _ _ _ _ => String.list_byte_of_string (passphrase +:+ salt))
    (fun input _ e => demoEncode input EmptyString e)
    (fun input id metadata _ e => demoEncode input (fmt_d id +:+ metadata) e)
    (fun consumer _ _ => demoStop consumer).

Definition demoEncryption (enabled : bool) : EncryptionConfig :=
  {| Enabled := enabled;
     Hashkey := [];
     TimeConsideration := 1;
     MemoryMultiplier := 64;
     Threads := 2 |}.

Definition demoConsumer (name : string) : @Consumer demoTypes :=
  @Build_Consumer demoTypes name tt.

Definition demoConfig (enabled : bool) : @RabbitSeasoning demoTypes :=
  @Build_RabbitSeasoning demoTypes
    tt
    {[ "audit" := "stuck"; "billing" := "invoices" ]}
    tt
    (demoEncryption enabled).

Definition demoService (count : Z) : @RabbitService demoTypes :=
  @Build_RabbitService demoTypes
    (demoConfig false) tt tt tt
    false
    {[ "audit" := demoConsumer "stuck"; "billing" := demoConsumer "invoices" ]}
    false
    count
    (200 * Millisecond).

Definition demoCall (v : string) : @Call demoTypes :=
  @Build_Call demoTypes ViaPublish (Some v) "orders" "new" false EmptyString.

Definition demoOrder : list (string * string) :=
  [("audit", "stuck"); ("billing", "invoices")].

Definition demoBuilt (enabled : bool) (passphrase salt : string)
    (handler : option nat)
  : (error + @RabbitService demoTypes) * list (@Event demoTypes) :=
  NewRabbitService (C := demoCollaborators) (demoConfig enabled) passphrase salt
    handler demoOrder.

Definition demoRegistryOrder : list (string * @Consumer demoTypes) :=
  [("audit", demoConsumer "stuck"); ("billing", demoConsumer "invoices")].

(** Two callers, one [Publish] each, on a service whose counter is 0; both
    load the counter before either adds to it. *)
Definition demoRace : list (@Caller demoTypes) * @Shared demoTypes :=
  run (C := demoCollaborators) [0; 1; 0; 1; 0; 1]%nat
    ([newCaller [demoCall "first"]; newCaller [demoCall "second"]],
     {| service := demoService 0; trace := [] |}).

Definition demoMessage (isAckable : bool) (amqpChan : option nat)
  : @ReceivedMessage nat :=
  {| IsAckable := isAckable;
     MessageBody := [];
     deliveryTag := 41;
     amqpChan := amqpChan |}.

(** Two callers on a service whose counter is 5: the first call is one that
    the payload pipeline refuses, and the second caller loads the counter
    before the first adds to it. [demoGapOpened] is the state when the
    first call has returned, [demoGapRefilled] the state at the end. *)
Definition demoGapOpened : list (@Caller demoTypes) * @Shared demoTypes :=
  run (C := demoCollaborators) [0; 1; 0; 0]%nat
    ([newCaller [demoCall "unserializable"]; newCaller [demoCall "second"]],
     {| service := demoService 5; trace := [] |}).

Definition demoGapRefilled : list (@Caller demoTypes) * @Shared demoTypes :=
  run (C := demoCollaborators) [1; 1]%nat demoGapOpened.

(** Readers that take nothing from the central error stream, and readers
    that take whatever is sent; the shutdown signal has room. *)
Definition demoNoReader : Channels :=
  {| centralErrTaken := 0; shutdownSignalRoom := true |}.

Definition demoReaders (n : nat) : Channels :=
  {| centralErrTaken := n; shutdownSignalRoom := true |}.

(** A channel that refuses a call it has already received. *)
Definition demoAnswer (history : list (nat * ChannelCall)) (ch : nat)
    (call : ChannelCall) : option failure :=
  if existsb
       (fun past =>
          Nat.eqb past.1 ch
          && match past.2, call with
             | ChannelAck t _, ChannelAck t' _ => Z.eqb t t'
             | ChannelNack t _ _, ChannelNack t' _ _ => Z.eqb t t'
             | ChannelReject t _, ChannelReject t' _ => Z.eqb t t'
             | _, _ => false
             end)
       history
  then Some "PRECONDITION_FAILED - unknown delivery tag"
  else None.

(** ** The rest of the orchestrator *)

Section Registry.

Context {X : External} {C : Collaborators}.

(** [strconv.Quote], which the verb [%q] of [fmt] applies to a string. *)
Variable strconvQuote : string -> string.

Definition GetConsumer (consumerName : string) (rs : RabbitService)
  : error + Consumer :=
  match consumers rs !! consumerName with
  | Some consumer => inr consumer
  | None =>
      inl (errorsNew
             ("consumer " +:+ strconvQuote consumerName +:+ " was not found"))
  end.

(** What [createConsumers] registers for one configuration. *)
Definition registered (consumerConfig : ConsumerConfig) (pool : ConnectionPool)
  : failure + Consumer :=
  match NewConsumerFromConfig consumerConfig pool with
  | inl err => inl err
  | inr consumer =>
      inr match osHostname with
          | inr hostName =>
              setConsumerName (hostName +:+ "-" +:+ ConsumerName consumer)
                consumer
          | inl _ => consumer
          end
  end.

End Registry.

(** ** Counting calls and results *)

Definition passesGuard {X : External} (call : Call) : bool :=
  negb (isNil (callInput call)
        || (String.eqb (callExchangeName call) EmptyString
            && String.eqb (callRoutingKey call) EmptyString)).

(** A result that is the error of a guard. *)
Definition isRejection (result : option error) : bool :=
  match result with
  | Some (errorsNew _) => true
  | _ => false
  end.

(** The LetterIDs that caller [i] has handed over, oldest first. *)
Definition idsOf (i : nat) (ids : list (nat * Z)) : list Z :=
  map snd (List.filter (fun p => Nat.eqb p.1 i) ids).

(** What holds of a caller, of the LetterIDs [ids] it has handed over and of
    the counter's value [count], between any two steps of an execution. *)
Definition callerOK {X : External} (count : Z) (ids : list Z) (c : Caller)
  : Prop :=
  StronglySorted Z.lt ids
  /\ match stage c with
     | AtEntry => Forall (fun id => id < count) ids
     | Loaded currentCount =>
         Forall (fun id => id < currentCount) ids /\ currentCount <= count
     | Added currentCount =>
         Forall (fun id => id < currentCount) ids /\ currentCount < count
     end.

Definition callersOK {X : External} (st : list Caller * Shared) : Prop :=
  forall i : nat,
    match st.1 !! i with
    | Some c =>
        callerOK (letterCount (service st.2))
          (idsOf i (handedIDs (trace st.2))) c
    | None => idsOf i (handedIDs (trace st.2)) = []
    end.

(** Decimal digits, to read a rendered number back. *)
Definition isDigit (a : Ascii.ascii) : bool :=
  (48 <=? Ascii.nat_of_ascii a)%nat && (Ascii.nat_of_ascii a <=? 57)%nat.

Fixpoint allDigits (s : string) : bool :=
  match s with
  | EmptyString => true
  | String a rest => isDigit a && allDigits rest
  end.

(** The number that a string of decimal digits writes. *)
Definition digitValue (a : Ascii.ascii) : option Z :=
  if isDigit a then Some (Z.of_nat (Ascii.nat_of_ascii a) - 48) else None.

Fixpoint decimalValueFrom (acc : Z) (s : string) : option Z :=
  match s with
  | EmptyString => Some acc
  | String a rest =>
      match digitValue a with
      | Some v => decimalValueFrom (10 * acc + v) rest
      | None => None
      end
  end.

Definition decimalValue (s : string) : option Z :=
  match s with
  | EmptyString => None
  | _ => decimalValueFrom 0 s
  end.

(** ** The monitors

    [monitorForShutdown]: one element of [signals] per iteration, the value
    received from [rs.shutdownSignal] or [None] for the [default] branch.
    The result tells whether the goroutine has returned. *)
Section Monitors.

Context {X : External}.



(** One [ErrorTick] per iteration of an error loop: the value of
    [rs.shutdown] that the iteration reads and, if it gets as far as the
    [select], the error taken from the source ([None]: the [default]
    branch). *)
Record ErrorTick : Type := {
  errSeesShutdown : bool;
  errPolled : option error
}.

Fixpoint collectAutoPublisherErrors (rs : RabbitService)
    (ticks : list ErrorTick) : list Event :=
  match ticks with
  | [] => []
  | t :: rest =>
      if errSeesShutdown t then []
      else
        match errPolled t with
        | Some err => CentralErrSend err :: collectAutoPublisherErrors rs rest
        | None =>
            Sleep (monitorSleepInterval rs)
            :: collectAutoPublisherErrors rs rest
        end
  end.

(** How the loop over one consumer's errors ends. *)
Inductive Drain : Type :=
| SawShutdown
| SourceEmpty
| Unfinished.

(** [IndividualConsumerLoop]: the events, the ticks left over, the way it
    ended ([Unfinished]: the ticks ran out first). *)
Fixpoint drainConsumer (ticks : list ErrorTick)
  : list Event * list ErrorTick * Drain :=
  match ticks with
  | [] => ([], [], Unfinished)
  | t :: rest =>
      if errSeesShutdown t then ([], rest, SawShutdown)
      else
        match errPolled t with
        | Some err =>
            let '(evs, unread, how) := drainConsumer rest in
            (CentralErrSend err :: evs, unread, how)
        | None => ([], rest, SourceEmpty)
        end
  end.

(** One traversal of [rs.consumers], in the order [order]. *)
Fixpoint sweepConsumers (order : list (string * Consumer))
    (ticks : list ErrorTick) : list Event * list ErrorTick * Drain :=
  match order with
  | [] => ([], ticks, SourceEmpty)
  | _ :: others =>
      match drainConsumer ticks with
      | (evs, unread, SourceEmpty) =>
          let '(evs', unread', how) := sweepConsumers others unread in
          (evs ++ evs', unread', how)
      | stopped => stopped
      end
  end.

(** [collectConsumerErrors]: [sweeps] gives, for each iteration of
    [MonitorLoop], the order in which [range] visits [rs.consumers]. The
    result tells whether the goroutine has returned. *)
Fixpoint collectConsumerErrors (rs : RabbitService)
    (sweeps : list (list (string * Consumer))) (ticks : list ErrorTick)
  : list Event * bool :=
  match sweeps with
  | [] => ([], false)
  | order :: later =>
      match sweepConsumers order ticks with
      | (evs, _, SawShutdown) => (evs, true)
      | (evs, _, Unfinished) => (evs, false)
      | (evs, unread, SourceEmpty) =>
          let '(evs', returned) := collectConsumerErrors rs later unread in
          (evs ++ Sleep (monitorSleepInterval rs) :: evs', returned)
      end
  end.

(** The errors that the iterations before the first one that reads
    [rs.shutdown] as set take from their source. *)
Fixpoint polledErrors (ticks : list ErrorTick) : list error :=
  match ticks with
  | [] => []
  | t :: rest =>
      if errSeesShutdown t then []
      else
        match errPolled t with
        | Some err => err :: polledErrors rest
        | None => polledErrors rest
        end
  end.

End Monitors.

(** ** Rendering a receipt *)

(** [err.Error()]. *)
Definition errorString (err : error) : string :=
  match err with
  | errorsNew msg => msg
  | collaboratorError reported => reported
  end.

Definition crlf : string :=
  String (Ascii.ascii_of_nat 13) (String (Ascii.ascii_of_nat 10) EmptyString).

(** [ToString]; [None] is the nil dereference of [not.Error.Error()]. *)
Definition ToString (not : PublishReceipt) : option string :=
  if Success not then
    Some ("[LetterID: " +:+ fmt_d (ReceiptLetterID not)
          +:+ "] - Publish successful." +:+ crlf)
  else
    match Error not with
    | None => None
    | Some err =>
        Some ("[LetterID: " +:+ fmt_d (ReceiptLetterID not)
              +:+ "] - Publish failed." +:+ crlf
              +:+ "Error: " +:+ errorString err +:+ crlf)
    end.

(** ** Building a received message *)

(** The fields of an [amqp.Delivery] that end up in the fields of
    [ReceivedMessage] kept here. *)
Record Delivery : Type := {
  DeliveryBody : list Byte.byte;
  DeliveryTag : Z
}.

Definition NewMessageFromDelivery {Channel : Type} (isAckable : bool)
    (amqpChan : option Channel) (delivery : option Delivery)
  : error + @ReceivedMessage Channel :=
  match delivery with
  | None => inl (errorsNew "No delivery available")
  | Some d =>
      inr {| IsAckable := isAckable;
             MessageBody := DeliveryBody d;
             deliveryTag := DeliveryTag d;
             amqpChan := amqpChan |}
  end.

(** The three ways to settle a message, and a sequence of them applied to
    one message. *)
Inductive Settlement : Type :=
| DoAcknowledge
| DoNack (requeue : bool)
| DoReject (requeue : bool).

Section Settling.

Context {Channel : Type}.
Variable answer :
  list (Channel * ChannelCall) -> Channel -> ChannelCall -> option failure.

Definition settle (how : Settlement) (msg : @ReceivedMessage Channel)
    (history : list (Channel * ChannelCall))
  : option error * list (Channel * ChannelCall) :=
  match how with
  | DoAcknowledge => Acknowledge answer msg history
  | DoNack requeue => Nack answer msg requeue history
  | DoReject requeue => Reject answer msg requeue history
  end.

Fixpoint settleAll (hows : list Settlement) (msg : @ReceivedMessage Channel)
    (history : list (Channel * ChannelCall))
  : list (option error) * list (Channel * ChannelCall) :=
  match hows with
  | [] => ([], history)
  | how :: rest =>
      let '(err, history1) := settle how msg history in
      let '(errs, history2) := settleAll rest msg history1 in
      (err :: errs, history2)
  end.

End Settling.

(** The call that a settlement makes for a delivery tag. *)
Definition callOf (how : Settlement) (tag : Z) : ChannelCall :=
  match how with
  | DoAcknowledge => ChannelAck tag false
  | DoNack requeue => ChannelNack tag false requeue
  | DoReject requeue => ChannelReject tag requeue
  end.


Definition demoNamedHost : @Collaborators demoTypes :=
  @Build_Collaborators demoTypes
    (fun _ => inr tt)
    (fun _ _ => inr tt)
    (fun _ => tt)
    (fun name _ => demoNewConsumer name)
    (inr "host7")
    (fun passphrase salt _ _ _ _ => String.list_byte_of_string (passphrase +:+ salt))
    (fun input _ e => demoEncode input EmptyString e)
    (fun input id metadata _ e => demoEncode input (fmt_d id +:+ metadata) e)
    (fun consumer _ _ => demoStop consumer).

Definition demoQuote (s : string) : string :=
  String (Ascii.ascii_of_nat 34) (s +:+ String (Ascii.ascii_of_nat 34) EmptyString).

Definition demoFailedReceipt (id : Z) (letter : option Letter) : PublishReceipt :=
  {| ReceiptLetterID := id; FailedLetter := letter; Success := false;
     Error := Some (collaboratorError "channel closed") |}.

(** * Properties *)

Section PublishFacts.

Context {X : External} {C : Collaborators}.

Implicit Types (input : option Value) (rs : RabbitService).

Lemma isNil_true {A : Type} (x : option A) : isNil x = true <-> x = None.
Proof. destruct x; simpl; split; congruence. Qed.

(** The guard of both entry points, as a proposition. *)
Lemma guard_spec input (exchangeName routingKey : string) :
  isNil input
  || (String.eqb exchangeName EmptyString && String.eqb routingKey EmptyString)
  = true
  <-> invalidArguments input exchangeName routingKey.
Proof.
  unfold invalidArguments.
  rewrite orb_true_iff, andb_true_iff, isNil_true, !String.eqb_eq.
  reflexivity.
Qed.

Lemma guard_false input (exchangeName routingKey : string) :
  ~ invalidArguments input exchangeName routingKey ->
  isNil input
  || (String.eqb exchangeName EmptyString && String.eqb routingKey EmptyString)
  = false.
Proof.
  intros H. apply not_true_is_false. intros E. apply H, guard_spec, E.
Qed.

Lemma buildPayload_setLetterCount input (n k : Z) (wrapPayload : bool)
    (metadata : string) rs :
  buildPayload input k wrapPayload metadata (setLetterCount n rs)
  = buildPayload input k wrapPayload metadata rs.
Proof. reflexivity. Qed.

(** C3. [Publish] and [PublishWithConfirmation] return their validation
    error exactly when the input is nil or the exchange name and the routing
    key are both empty; in that case the service is left as it was and
    nothing is handed to the Publisher. *)
Theorem validation_error_iff input (exchangeName routingKey : string)
    (wrapPayload : bool) (metadata : string) rs :
  let p := Publish input exchangeName routingKey wrapPayload metadata rs in
  let pc :=
    PublishWithConfirmation input exchangeName routingKey wrapPayload metadata rs in
  (p.1.1 = Some (validationError ViaPublish)
   <-> invalidArguments input exchangeName routingKey)
  /\ (pc.1.1 = Some (validationError ViaPublishWithConfirmation)
      <-> invalidArguments input exchangeName routingKey)
  /\ ((exists msg, p.1.1 = Some (errorsNew msg))
      <-> invalidArguments input exchangeName routingKey)
  /\ ((exists msg, pc.1.1 = Some (errorsNew msg))
      <-> invalidArguments input exchangeName routingKey)
  /\ (invalidArguments input exchangeName routingKey ->
      p.1.2 = rs /\ p.2 = [] /\ pc.1.2 = rs /\ pc.2 = []).
Proof.
  intros p pc. subst p pc.
  unfold Publish, PublishWithConfirmation.
  pose proof (guard_spec input exchangeName routingKey) as G.
  destruct (isNil input
            || (String.eqb exchangeName EmptyString
                && String.eqb routingKey EmptyString)) eqn:E.
  - assert (I : invalidArguments input exchangeName routingKey)
      by (apply G; reflexivity).
    simpl. repeat split; auto; eauto.
  - assert (I : ~ invalidArguments input exchangeName routingKey)
      by (intros H; apply G in H; discriminate).
    rewrite !buildPayload_setLetterCount.
    destruct (buildPayload input (letterCount rs) wrapPayload metadata rs);
      simpl; repeat split; try tauto; try discriminate;
      intros [msg H]; discriminate.
Qed.

(** Both entry points, once the guard is passed. *)
Lemma Publish_valid input (exchangeName routingKey : string)
    (wrapPayload : bool) (metadata : string) rs :
  ~ invalidArguments input exchangeName routingKey ->
  Publish input exchangeName routingKey wrapPayload metadata rs
  = let rs' := setLetterCount (AddUint64 (letterCount rs) 1) rs in
    match buildPayload input (letterCount rs) wrapPayload metadata rs with
    | inl err => (Some (collaboratorError err), rs', [])
    | inr data =>
        (None, rs',
         [PublisherPublish
            (newLetter (letterCount rs) data exchangeName routingKey)])
    end.
Proof.
  intros H. unfold Publish. rewrite (guard_false _ _ _ H).
  rewrite buildPayload_setLetterCount. reflexivity.
Qed.

Lemma PublishWithConfirmation_valid input (exchangeName routingKey : string)
    (wrapPayload : bool) (metadata : string) rs :
  ~ invalidArguments input exchangeName routingKey ->
  PublishWithConfirmation input exchangeName routingKey wrapPayload metadata rs
  = let rs' := setLetterCount (AddUint64 (letterCount rs) 1) rs in
    match buildPayload input (letterCount rs) wrapPayload metadata rs with
    | inl err => (Some (collaboratorError err), rs', [])
    | inr data =>
        (None, rs',
         [PublisherPublishWithConfirmation
            (newLetter (letterCount rs) data exchangeName routingKey)
            (Millisecond * 300)])
    end.
Proof.
  intros H. unfold PublishWithConfirmation. rewrite (guard_false _ _ _ H).
  rewrite buildPayload_setLetterCount. reflexivity.
Qed.

(** Whatever a call hands to the Publisher carries the counter's value at
    entry and the fixed envelope fields. *)
Lemma handed_letter_shape input (exchangeName routingKey : string)
    (wrapPayload : bool) (metadata : string) rs (l : Letter) :
  In l (omap handedLetter
          (Publish input exchangeName routingKey wrapPayload metadata rs).2)
  \/ In l (omap handedLetter
             (PublishWithConfirmation input exchangeName routingKey
                wrapPayload metadata rs).2) ->
  LetterID l = letterCount rs
  /\ LetterEnvelope l
     = {| Exchange := exchangeName;
          RoutingKey := routingKey;
          ContentType := "application/json";
          Mandatory := false;
          Immediate := false;
          DeliveryMode := 2 |}.
Proof.
  unfold Publish, PublishWithConfirmation.
  destruct (isNil input || _); simpl; [tauto |].
  rewrite !buildPayload_setLetterCount.
  destruct (buildPayload _ _ _ _ _); simpl; [tauto |].
  intros [[<- | []] | [<- | []]]; split; reflexivity.
Qed.


(** C2. With the counter at 5, [Publish] of a non-nil input to exchange
    [orders] with routing key [new], unwrapped and without metadata, leaves
    the counter at 6 and, the payload built, hands the Publisher exactly one
    letter: LetterID 5 and the envelope [orders]/[new] with content type
    [application/json], not mandatory, not immediate, delivery mode 2.
    Every letter that either entry point hands over, on any call, carries
    these four constant fields. *)
Theorem publish_orders_new (v : Value) (data : list Byte.byte) rs :
  letterCount rs = 5 ->
  CreatePayload (Some v) (SeasoningCompressionConfig (Config rs))
    (SeasoningEncryptionConfig (Config rs)) = inr data ->
  Publish (Some v) "orders" "new" false EmptyString rs
  = (None, setLetterCount 6 rs,
     [PublisherPublish
        {| LetterID := 5;
           Body := data;
           LetterEnvelope :=
             {| Exchange := "orders";
                RoutingKey := "new";
                ContentType := "application/json";
                Mandatory := false;
                Immediate := false;
                DeliveryMode := 2 |} |}])
  /\ letterCount
       (Publish (Some v) "orders" "new" false EmptyString rs).1.2 = 6
  /\ forall input (exchangeName routingKey : string) (wrapPayload : bool)
       (metadata : string) rs' (l : Letter),
       In l (omap handedLetter
               (Publish input exchangeName routingKey wrapPayload metadata rs').2)
       \/ In l (omap handedLetter
                  (PublishWithConfirmation input exchangeName routingKey
                     wrapPayload metadata rs').2) ->
       ContentType (LetterEnvelope l) = "application/json"
       /\ Mandatory (LetterEnvelope l) = false
       /\ Immediate (LetterEnvelope l) = false
       /\ DeliveryMode (LetterEnvelope l) = 2.
Proof.
  intros Hc Hp.
  assert (V : ~ invalidArguments (Some v) "orders" "new")
    by (intros [H | [H _]]; discriminate).
  rewrite Publish_valid by exact V.
  unfold buildPayload. rewrite Hp, Hc. simpl.
  repeat split; try reflexivity;
    apply handed_letter_shape in H; destruct H as [_ ->]; reflexivity.
Qed.

(** *** Calls made one after the other *)

Lemma AddUint64_range (x d : Z) : 0 <= AddUint64 x d < uint64_modulus.
Proof. unfold AddUint64, uint64_modulus. apply Z.mod_pos_bound. lia. Qed.

Lemma callAlone_valid (call : Call) rs :
  ~ callInvalid call ->
  callAlone call rs
  = let rs' := setLetterCount (AddUint64 (letterCount rs) 1) rs in
    match buildPayload (callInput call) (letterCount rs) (callWrapPayload call)
            (callMetadata call) rs with
    | inl err => (Some (collaboratorError err), rs', [])
    | inr data =>
        (None, rs',
         [handOff (entryPoint call)
            (newLetter (letterCount rs) data (callExchangeName call)
               (callRoutingKey call))])
    end.
Proof.
  intros V. unfold callAlone, handOff.
  destruct (entryPoint call);
    [rewrite Publish_valid by exact V
    | rewrite PublishWithConfirmation_valid by exact V];
    simpl; destruct (buildPayload _ _ _ _ _); reflexivity.
Qed.

Lemma callAlone_invalid (call : Call) rs :
  callInvalid call ->
  callAlone call rs = (Some (validationError (entryPoint call)), rs, []).
Proof.
  intros V. apply guard_spec in V.
  unfold callAlone, Publish, PublishWithConfirmation.
  destruct (entryPoint call); rewrite V; reflexivity.
Qed.

Lemma callInvalid_dec (call : Call) : callInvalid call \/ ~ callInvalid call.
Proof.
  unfold callInvalid.
  destruct (isNil (callInput call)
            || (String.eqb (callExchangeName call) EmptyString
                && String.eqb (callRoutingKey call) EmptyString)) eqn:E.
  - left. apply guard_spec, E.
  - right. intros H. apply guard_spec in H. congruence.
Qed.

(** The counter after a call: untouched by a rejected call, one further
    (modulo [2^64]) after any other. *)
Lemma callAlone_count (call : Call) rs :
  letterCount (callAlone call rs).1.2 = letterCount rs
  \/ letterCount (callAlone call rs).1.2 = AddUint64 (letterCount rs) 1.
Proof.
  destruct (callInvalid_dec call) as [V | V].
  - left. rewrite callAlone_invalid by exact V. reflexivity.
  - right. rewrite callAlone_valid by exact V. simpl.
    destruct (buildPayload _ _ _ _ _); reflexivity.
Qed.

Lemma callAlone_handed (call : Call) rs (l : Letter) :
  In l (omap handedLetter (callAlone call rs).2) -> LetterID l = letterCount rs.
Proof.
  intros H. unfold callAlone in H.
  destruct (entryPoint call);
    eapply handed_letter_shape; [left | right]; exact H.
Qed.

Lemma omap_app_In {A B : Type} (f : A -> option B) (l1 l2 : list A) (b : B) :
  In b (omap f (l1 ++ l2)) -> In b (omap f l1) \/ In b (omap f l2).
Proof. rewrite omap_app. apply in_app_or. Qed.

(** A letter handed over in the course of [n] calls in turn carries the
    counter's starting value plus some [k < n], modulo [2^64]. *)
Lemma callsInTurn_ids (calls : list Call) : forall rs (l : Letter),
  0 <= letterCount rs < uint64_modulus ->
  In l (omap handedLetter (callsInTurn calls rs).2) ->
  exists k : Z,
    0 <= k < Z.of_nat (length calls)
    /\ LetterID l = (letterCount rs + k) mod uint64_modulus.
Proof.
  induction calls as [| call rest IH]; intros rs l R H.
  - contradiction.
  - simpl in H.
    destruct (callAlone call rs) as [[err rs1] evs1] eqn:E1.
    destruct (callsInTurn rest rs1) as [[errs rs2] evs2] eqn:E2.
    simpl in H. apply omap_app_In in H. destruct H as [H | H].
    + exists 0. split; [simpl length; lia |].
      replace evs1 with (callAlone call rs).2 in H by (rewrite E1; reflexivity).
      apply callAlone_handed in H. rewrite H, Z.add_0_r.
      symmetry. apply Z.mod_small. exact R.
    + assert (R1 : 0 <= letterCount rs1 < uint64_modulus
                   /\ (letterCount rs1 = letterCount rs
                       \/ letterCount rs1 = AddUint64 (letterCount rs) 1)).
      { pose proof (callAlone_count call rs) as Hc. rewrite E1 in Hc.
        simpl in Hc. split; [| exact Hc].
        destruct Hc as [-> | ->]; [exact R | apply AddUint64_range]. }
      destruct R1 as [R1 Hc].
      replace evs2 with (callsInTurn rest rs1).2 in H by (rewrite E2; reflexivity).
      destruct (IH rs1 l R1 H) as (k & Hk & Hid).
      destruct Hc as [Hc | Hc].
      * exists k. split; [simpl length; lia |]. rewrite Hid, Hc. reflexivity.
      * exists (k + 1). split; [simpl length; lia |].
        rewrite Hid, Hc. unfold AddUint64.
        rewrite Zplus_mod_idemp_l. f_equal. lia.
Qed.

(** X23. When calls are made one after the other, a call that passes the
    guard and then fails in the payload pipeline still advances the counter
    by one (modulo [2^64]): nothing is handed to the Publisher under the
    value it read, and none of the letters of the calls made after it (fewer
    than [2^64] of them, the range of the counter) carries that value. *)
Theorem failed_call_leaves_gap (call : Call) rs (err : failure)
    (later : list Call) :
  ~ callInvalid call ->
  buildPayload (callInput call) (letterCount rs) (callWrapPayload call)
    (callMetadata call) rs = inl err ->
  Z.of_nat (length later) < uint64_modulus ->
  (callAlone call rs).1.1 = Some (collaboratorError err)
  /\ (callAlone call rs).2 = []
  /\ letterCount (callAlone call rs).1.2 = AddUint64 (letterCount rs) 1
  /\ (0 <= letterCount rs < uint64_modulus - 1 ->
      letterCount (callAlone call rs).1.2 = letterCount rs + 1)
  /\ forall l : Letter,
       In l (omap handedLetter (callsInTurn later (callAlone call rs).1.2).2) ->
       LetterID l <> letterCount rs.
Proof.
  intros V F N. rewrite callAlone_valid by exact V. simpl. rewrite F. simpl.
  repeat split.
  - intros R. unfold AddUint64. apply Z.mod_small. lia.
  - intros l H.
    apply callsInTurn_ids in H; [| simpl; apply AddUint64_range].
    destruct H as (k & Hk & Hid). simpl in Hid. rewrite Hid.
    unfold AddUint64. rewrite Zplus_mod_idemp_l.
    intros E.
    assert (M : 0 < uint64_modulus) by (unfold uint64_modulus; lia).
    pose proof (Z.mod_pos_bound (letterCount rs + 1 + k) _ M) as B.
    rewrite E in B.
    pose proof (Z.div_mod (letterCount rs + 1 + k) uint64_modulus
                  ltac:(lia)) as D.
    rewrite E in D.
    assert (Q : 1 + k
                = uint64_modulus * ((letterCount rs + 1 + k) / uint64_modulus))
      by lia.
    set (q := (letterCount rs + 1 + k) / uint64_modulus) in *.
    clearbody q. clear D B E Hid.
    destruct (Z_lt_le_dec q 1) as [Hq | Hq].
    + assert (uint64_modulus * q <= 0) by (apply Z.mul_nonneg_nonpos; lia). lia.
    + assert (uint64_modulus * 1 <= uint64_modulus * q)
        by (apply Z.mul_le_mono_nonneg_l; lia).
      lia.
Qed.

End PublishFacts.

Section ServiceFacts.

Context {X : External} {C : Collaborators}.

Implicit Types (rs : RabbitService) (ticks : list Tick).

(** The two diagnostics of the default policy never coincide. *)
Lemma diagnostics_differ (id id' : Z) :
  fmtErrorf "failed to publish letter " id "... retrying"
  <> fmtErrorf "failed to publish a letter " id'
       " and unable to retry as a copy of the letter was not received".
Proof. unfold fmtErrorf. simpl. intros H. inversion H. Qed.

Lemma decimalValueFrom_acc (d : Decimal.uint) : forall acc : positive,
  decimalValueFrom (Z.pos acc) (NilEmpty.string_of_uint d)
  = Some (Z.pos (Pos.of_uint_acc d acc)).
Proof.
  induction d; intros acc; simpl; [reflexivity | ..];
    unfold digitValue; simpl;
    rewrite <- IHd; f_equal;
    match goal with
    | |- context [Z.of_nat ?n] =>
        let v := eval vm_compute in (Z.of_nat n) in
        change (Z.of_nat n) with v
    end; lia.
Qed.

Lemma decimalValueFrom_uint (d : Decimal.uint) :
  decimalValueFrom 0 (NilEmpty.string_of_uint d) = Some (Z.of_N (Pos.of_uint d)).
Proof.
  induction d; simpl; [reflexivity | exact IHd | ..];
    unfold digitValue; simpl; apply decimalValueFrom_acc.
Qed.

Lemma string_of_uint_nonempty (d : Decimal.uint) :
  d <> Decimal.Nil -> NilEmpty.string_of_uint d <> EmptyString.
Proof. destruct d; simpl; congruence. Qed.

Lemma decimalValue_fmt_d (n : Z) : 0 <= n -> decimalValue (fmt_d n) = Some n.
Proof.
  intros Hn. unfold fmt_d.
  pose proof (DecimalN.Unsigned.of_to (Z.to_N n)) as R.
  unfold N.of_uint in R.
  assert (Nn : N.to_uint (Z.to_N n) <> Decimal.Nil).
  { destruct (Z.to_N n); [discriminate | apply DecimalPos.Unsigned.to_uint_nonnil]. }
  assert (E : NilZero.string_of_uint (N.to_uint (Z.to_N n))
              = NilEmpty.string_of_uint (N.to_uint (Z.to_N n))).
  { destruct (N.to_uint (Z.to_N n)); [congruence | reflexivity ..]. }
  rewrite E. pose proof (string_of_uint_nonempty _ Nn) as Ne.
  unfold decimalValue.
  destruct (NilEmpty.string_of_uint (N.to_uint (Z.to_N n))) eqn:Es;
    [congruence |].
  rewrite <- Es, decimalValueFrom_uint, R. f_equal. lia.
Qed.

(** No leading zero, except for zero itself. *)
Lemma nzhead_no_D0 (d d' : Decimal.uint) : Decimal.nzhead d <> Decimal.D0 d'.
Proof. induction d; simpl; congruence. Qed.

Lemma fmt_d_leading (n : Z) :
  0 < n -> forall rest : string, fmt_d n <> String "0" rest.
Proof.
  intros Hn rest. unfold fmt_d.
  destruct (Z.to_N n) as [| p] eqn:En; [lia |].
  simpl N.to_uint.
  pose proof (DecimalPos.Unsigned.to_of (Pos.to_uint p)) as T.
  rewrite DecimalPos.Unsigned.of_to in T. simpl in T.
  pose proof (DecimalPos.Unsigned.to_uint_nonnil p) as Nn.
  destruct (Pos.to_uint p) eqn:E; try congruence;
    unfold NilZero.string_of_uint; simpl; try discriminate.
  exfalso. unfold Decimal.unorm in T. simpl in T.
  destruct (Decimal.nzhead u) eqn:Eh; try discriminate.
  - injection T as T. subst u.
    pose proof (DecimalPos.Unsigned.to_uint_nonzero p) as Z0.
    rewrite E in Z0. apply Z0. reflexivity.
  - eapply nzhead_no_D0. exact Eh.
Qed.

Lemma string_of_uint_digits (d : Decimal.uint) :
  allDigits (NilEmpty.string_of_uint d) = true.
Proof. induction d; simpl; auto. Qed.

Lemma fmt_d_digits (n : Z) : allDigits (fmt_d n) = true.
Proof.
  unfold fmt_d, NilZero.string_of_uint.
  destruct (N.to_uint (Z.to_N n)) eqn:E; try reflexivity;
    rewrite <- E at 1; rewrite E; apply string_of_uint_digits.
Qed.

(** C4. Under the default policy, a failed receipt that carries the letter
    has one error sent to the central error stream and, once a reader has
    taken it, that letter queued once; a failed receipt without the letter
    has one error sent, worded differently, and nothing queued; while no
    reader takes the error, the loop is stuck in the send and has queued
    nothing. A successful receipt sends and queues nothing. Both errors name
    the LetterID: the digits between the fixed words write it in decimal,
    without leading zeros. *)
Theorem default_receipt_policy rs (id : Z) (l : Letter) (fl : option Letter)
    (e : option error) ticks (taken : nat) (room : bool) :
  processPublishReceipts rs
    ({| seesShutdown := false;
        polled := Some {| ReceiptLetterID := id; FailedLetter := Some l;
                          Success := false; Error := e |} |} :: ticks)
    {| centralErrTaken := S taken; shutdownSignalRoom := room |}
  = (CentralErrSend
       (errorsNew ("failed to publish letter " +:+ fmt_d id +:+ "... retrying"))
     :: PublisherQueueLetter l
     :: (processPublishReceipts rs ticks
           {| centralErrTaken := taken; shutdownSignalRoom := room |}).1.1,
     (processPublishReceipts rs ticks
        {| centralErrTaken := taken; shutdownSignalRoom := room |}).1.2,
     (processPublishReceipts rs ticks
        {| centralErrTaken := taken; shutdownSignalRoom := room |}).2)
  /\ processPublishReceipts rs
       ({| seesShutdown := false;
           polled := Some {| ReceiptLetterID := id; FailedLetter := Some l;
                             Success := false; Error := e |} |} :: ticks)
       {| centralErrTaken := 0; shutdownSignalRoom := room |}
     = ([],
        {| centralErrTaken := 0; shutdownSignalRoom := room |},
        BlockedOnCentralErr
          (errorsNew
             ("failed to publish letter " +:+ fmt_d id +:+ "... retrying")))
  /\ processPublishReceipts rs
       ({| seesShutdown := false;
           polled := Some {| ReceiptLetterID := id; FailedLetter := None;
                             Success := false; Error := e |} |} :: ticks)
       {| centralErrTaken := S taken; shutdownSignalRoom := room |}
     = (CentralErrSend
          (errorsNew
             ("failed to publish a letter " +:+ fmt_d id
              +:+ " and unable to retry as a copy of the letter was not received"))
        :: (processPublishReceipts rs ticks
              {| centralErrTaken := taken; shutdownSignalRoom := room |}).1.1,
        (processPublishReceipts rs ticks
           {| centralErrTaken := taken; shutdownSignalRoom := room |}).1.2,
        (processPublishReceipts rs ticks
           {| centralErrTaken := taken; shutdownSignalRoom := room |}).2)
  /\ processPublishReceipts rs
       ({| seesShutdown := false;
           polled := Some {| ReceiptLetterID := id; FailedLetter := None;
                             Success := false; Error := e |} |} :: ticks)
       {| centralErrTaken := 0; shutdownSignalRoom := room |}
     = ([],
        {| centralErrTaken := 0; shutdownSignalRoom := room |},
        BlockedOnCentralErr
          (errorsNew
             ("failed to publish a letter " +:+ fmt_d id
              +:+ " and unable to retry as a copy of the letter was not received")))
  /\ processPublishReceipts rs
       ({| seesShutdown := false;
           polled := Some {| ReceiptLetterID := id; FailedLetter := fl;
                             Success := true; Error := e |} |} :: ticks)
       {| centralErrTaken := taken; shutdownSignalRoom := room |}
     = processPublishReceipts rs ticks
         {| centralErrTaken := taken; shutdownSignalRoom := room |}
  /\ (forall id' : Z,
        errorsNew ("failed to publish letter " +:+ fmt_d id +:+ "... retrying")
        <> errorsNew
             ("failed to publish a letter " +:+ fmt_d id'
              +:+ " and unable to retry as a copy of the letter was not received"))
  /\ (0 <= id ->
      decimalValue (fmt_d id) = Some id
      /\ allDigits (fmt_d id) = true
      /\ (0 < id -> forall rest : string, fmt_d id <> String "0" rest)).
Proof.
  split; [| split; [| split; [| split; [| split; [| split]]]]].
  - simpl. unfold andThen, retryOrReport. simpl.
    destruct (processPublishReceipts rs ticks _) as [[evs ch'] progress].
    reflexivity.
  - reflexivity.
  - simpl. unfold andThen, retryOrReport. simpl.
    destruct (processPublishReceipts rs ticks _) as [[evs ch'] progress].
    reflexivity.
  - reflexivity.
  - simpl. unfold andThen, retryOrReport. simpl.
    destruct (processPublishReceipts rs ticks _) as [[evs ch'] progress].
    reflexivity.
  - intros id'. apply (diagnostics_differ id id').
  - intros Hid. split; [apply decimalValue_fmt_d, Hid |].
    split; [apply fmt_d_digits | intros Hp; apply fmt_d_leading, Hp].
Qed.

Lemma invoke_trace (h : Handler) rs ticks :
  omap handlerReceipt (invokeProcessPublishReceipts h rs ticks)
  = map (pair h) (drained ticks)
  /\ omap centralError (invokeProcessPublishReceipts h rs ticks) = []
  /\ omap requeuedLetter (invokeProcessPublishReceipts h rs ticks) = [].
Proof.
  induction ticks as [| t rest (IH1 & IH2 & IH3)]; [auto |].
  simpl. destruct (seesShutdown t); [auto |].
  destruct (polled t); simpl; repeat split;
    first [exact IH2 | exact IH3 | exact IH1 | f_equal; exact IH1].
Qed.

Lemma constructor_result (config : RabbitSeasoning) (passphrase salt : string)
    (handler : option Handler) (order : list (string * ConsumerConfig)) rs :
  (NewRabbitService config passphrase salt handler order).1 = inr rs ->
  exists connectionPool publisher registry,
    NewConnectionPool (SeasoningPoolConfig config) = inr connectionPool
    /\ NewPublisherWithConfig config connectionPool = inr publisher
    /\ createConsumers order connectionPool ∅ = inr registry
    /\ (NewRabbitService config passphrase salt handler order).2
       = (if encryptionRequested config passphrase salt then
            [GetHashWithArgonCall passphrase salt
               (TimeConsideration (SeasoningEncryptionConfig config))
               (MemoryMultiplier (SeasoningEncryptionConfig config))
               (Threads (SeasoningEncryptionConfig config)) 32]
          else [])
         ++ [Go GoCollectConsumerErrors;
             Go GoCollectAutoPublisherErrors;
             Go GoMonitorForShutdown;
             Go (receiptTask handler);
             PublisherStartAutoPublishing]
    /\ rs = {| Config :=
                 if encryptionRequested config passphrase salt then
                   setEncryptionConfig
                     (setHashkey
                        (GetHashWithArgon passphrase salt
                           (TimeConsideration (SeasoningEncryptionConfig config))
                           (MemoryMultiplier (SeasoningEncryptionConfig config))
                           (Threads (SeasoningEncryptionConfig config)) 32)
                        (SeasoningEncryptionConfig config))
                     config
                 else config;
               ServiceConnectionPool := connectionPool;
               ServiceTopologer := NewTopologer connectionPool;
               ServicePublisher := publisher;
               encryptionConfigured :=
                 encryptionRequested config passphrase salt;
               consumers := registry;
               shutdown := false;
               letterCount := 0;
               monitorSleepInterval := 200 * Millisecond |}.
Proof.
  unfold NewRabbitService.
  destruct (NewConnectionPool _) as [? | connectionPool] eqn:E1;
    [discriminate |].
  destruct (NewPublisherWithConfig _ _) as [? | publisher] eqn:E2;
    [discriminate |].
  destruct (createConsumers _ _ _) as [? | registry] eqn:E3; [discriminate |].
  simpl. intros [= <-].
  exists connectionPool, publisher, registry.
  repeat split; first [assumption | reflexivity].
Qed.

(** C5. A service built with a custom receipt handler starts the loop that
    calls the handler and not the default one; that loop passes every
    receipt it takes from the receipt source to the handler, as it is, and
    neither sends to the central error stream nor queues a letter. *)
Theorem custom_handler_owns_receipts (config : RabbitSeasoning)
    (passphrase salt : string) (h : Handler)
    (order : list (string * ConsumerConfig)) rs :
  (NewRabbitService config passphrase salt (Some h) order).1 = inr rs ->
  omap startedTask (NewRabbitService config passphrase salt (Some h) order).2
  = [GoCollectConsumerErrors;
     GoCollectAutoPublisherErrors;
     GoMonitorForShutdown;
     GoInvokeProcessPublishReceipts h]
  /\ forall ticks (ch : Channels),
       omap handlerReceipt
         (runReceiptTask (GoInvokeProcessPublishReceipts h) rs ticks ch)
       = map (pair h) (drained ticks)
       /\ omap centralError
            (runReceiptTask (GoInvokeProcessPublishReceipts h) rs ticks ch) = []
       /\ omap requeuedLetter
            (runReceiptTask (GoInvokeProcessPublishReceipts h) rs ticks ch)
          = [].
Proof.
  intros H.
  destruct (constructor_result _ _ _ _ _ _ H) as (? & ? & ? & _ & _ & _ & E & _).
  rewrite E. split.
  - destruct (encryptionRequested _ _ _); reflexivity.
  - intros ticks ch. apply invoke_trace.
Qed.

Lemma nonempty_length (s : string) :
  (0 <? Z.of_nat (String.length s)) = true <-> s <> EmptyString.
Proof.
  rewrite Z.ltb_lt. destruct s; simpl String.length; split; intros H.
  - lia.
  - congruence.
  - discriminate.
  - lia.
Qed.

Lemma encryptionRequested_spec (config : RabbitSeasoning)
    (passphrase salt : string) :
  encryptionRequested config passphrase salt = true
  <-> Enabled (SeasoningEncryptionConfig config) = true
      /\ passphrase <> EmptyString /\ salt <> EmptyString.
Proof.
  unfold encryptionRequested.
  rewrite !andb_true_iff, !nonempty_length. tauto.
Qed.

(** C6, as the code has it. In a construction that succeeds, the key is
    derived, by one call of the derivation function with the passphrase, the
    salt, the configured time cost, memory multiplier and thread count and
    the length 32, exactly when the flag is set and passphrase and salt are
    both non-empty; the key is then stored in the configuration and the
    service is marked as configured for encryption. Otherwise nothing is
    derived, the configuration stays as given and the mark stays unset. In
    both cases the payload pipeline is handed the encryption configuration
    with the flag as configured. *)
Theorem key_derived_when_requested (config : RabbitSeasoning)
    (passphrase salt : string) (handler : option Handler)
    (order : list (string * ConsumerConfig)) rs :
  (NewRabbitService config passphrase salt handler order).1 = inr rs ->
  (Enabled (SeasoningEncryptionConfig config) = true
   /\ passphrase <> EmptyString /\ salt <> EmptyString ->
   omap derivedKey (NewRabbitService config passphrase salt handler order).2
   = [(passphrase, salt,
       (TimeConsideration (SeasoningEncryptionConfig config),
        MemoryMultiplier (SeasoningEncryptionConfig config),
        Threads (SeasoningEncryptionConfig config), 32))]
   /\ SeasoningEncryptionConfig (Config rs)
      = setHashkey
          (GetHashWithArgon passphrase salt
             (TimeConsideration (SeasoningEncryptionConfig config))
             (MemoryMultiplier (SeasoningEncryptionConfig config))
             (Threads (SeasoningEncryptionConfig config)) 32)
          (SeasoningEncryptionConfig config)
   /\ encryptionConfigured rs = true)
  /\ (~ (Enabled (SeasoningEncryptionConfig config) = true
         /\ passphrase <> EmptyString /\ salt <> EmptyString) ->
      omap derivedKey (NewRabbitService config passphrase salt handler order).2
      = []
      /\ Config rs = config
      /\ encryptionConfigured rs = false)
  /\ Enabled (SeasoningEncryptionConfig (Config rs))
     = Enabled (SeasoningEncryptionConfig config)
  /\ forall (input : option Value) (k : Z) (wrapPayload : bool)
       (metadata : string),
       buildPayload input k wrapPayload metadata rs
       = if wrapPayload then
           CreateWrappedPayload input k metadata
             (SeasoningCompressionConfig config)
             (SeasoningEncryptionConfig (Config rs))
         else
           CreatePayload input (SeasoningCompressionConfig config)
             (SeasoningEncryptionConfig (Config rs)).
Proof.
  intros H.
  destruct (constructor_result _ _ _ _ _ _ H)
    as (pool & publisher & registry & _ & _ & _ & E & ->).
  rewrite E. clear E H.
  pose proof (encryptionRequested_spec config passphrase salt) as S.
  destruct (encryptionRequested config passphrase salt).
  - split; [intros _; repeat split; reflexivity |].
    split; [| split; [reflexivity | intros; reflexivity]].
    intros N. exfalso. apply N, S. reflexivity.
  - split; [intros N; apply S in N; discriminate |].
    split; [intros _; repeat split; reflexivity |].
    split; [reflexivity | intros; reflexivity].
Qed.

(** When the construction fails, nothing has been derived. *)
Lemma failed_construction_is_silent (config : RabbitSeasoning)
    (passphrase salt : string) (handler : option Handler)
    (order : list (string * ConsumerConfig)) (err : error) :
  (NewRabbitService config passphrase salt handler order).1 = inl err ->
  (NewRabbitService config passphrase salt handler order).2 = [].
Proof.
  unfold NewRabbitService.
  destruct (NewConnectionPool _); [reflexivity |].
  destruct (NewPublisherWithConfig _ _); [reflexivity |].
  destruct (createConsumers _ _ _); [reflexivity | discriminate].
Qed.

(** *** Shutdown *)

Lemma stops_stopped (order : list (string * Consumer)) :
  omap stoppedConsumer (flat_map completedStop order) = order.
Proof.
  induction order as [| [name consumer] rest IH]; [reflexivity |].
  simpl. unfold completedStop at 1. simpl.
  destruct (StopConsuming consumer true true); simpl; f_equal; exact IH.
Qed.

Lemma stops_reported (order : list (string * Consumer)) :
  omap centralError (flat_map completedStop order) = stopFailures order.
Proof.
  unfold stopFailures.
  induction order as [| [name consumer] rest IH]; [reflexivity |].
  simpl. unfold completedStop at 1. simpl.
  destruct (StopConsuming consumer true true); simpl; [f_equal |]; exact IH.
Qed.

Lemma stopConsumer_quiet (entry : string * Consumer) (ch : Channels) :
  StopConsuming entry.2 true true = None ->
  stopConsumer entry ch
  = ([ConsumerStopConsuming entry.1 entry.2 true true], ch, Unblocked).
Proof. intros E. unfold stopConsumer, andThen, emit. rewrite E. reflexivity. Qed.

Lemma stopConsumer_taken (entry : string * Consumer) (ch : Channels)
    (err : failure) (n : nat) :
  StopConsuming entry.2 true true = Some err ->
  centralErrTaken ch = S n ->
  stopConsumer entry ch
  = ([ConsumerStopConsuming entry.1 entry.2 true true;
      CentralErrSend (collaboratorError err)],
     {| centralErrTaken := n; shutdownSignalRoom := shutdownSignalRoom ch |},
     Unblocked).
Proof.
  intros E T. unfold stopConsumer, andThen, emit, sendCentralErr.
  rewrite E. simpl. rewrite T. reflexivity.
Qed.

Lemma stopConsumer_stuck (entry : string * Consumer) (ch : Channels)
    (err : failure) :
  StopConsuming entry.2 true true = Some err ->
  centralErrTaken ch = O ->
  stopConsumer entry ch
  = ([ConsumerStopConsuming entry.1 entry.2 true true], ch,
     BlockedOnCentralErr (collaboratorError err)).
Proof.
  intros E T. unfold stopConsumer, andThen, emit, sendCentralErr.
  rewrite E. simpl. rewrite T. reflexivity.
Qed.

Lemma steps_cons (first : Step) (rest : list Step) (ch : Channels) :
  steps (first :: rest) ch
  = match first ch with
    | (evs, ch', Unblocked) =>
        let '(evs', ch'', progress) := steps rest ch' in
        (evs ++ evs', ch'', progress)
    | stuck => stuck
    end.
Proof. reflexivity. Qed.

Lemma stopFailures_cons (entry : string * Consumer)
    (rest : list (string * Consumer)) :
  stopFailures (entry :: rest)
  = match StopConsuming entry.2 true true with
    | Some err => collaboratorError err :: stopFailures rest
    | None => stopFailures rest
    end.
Proof.
  unfold stopFailures. simpl.
  destruct (StopConsuming entry.2 true true); reflexivity.
Qed.

Lemma completedStop_cons (entry : string * Consumer)
    (rest : list (string * Consumer)) :
  flat_map completedStop (entry :: rest)
  = ConsumerStopConsuming entry.1 entry.2 true true
    :: match StopConsuming entry.2 true true with
       | Some err => [CentralErrSend (collaboratorError err)]
       | None => []
       end
    ++ flat_map completedStop rest.
Proof. reflexivity. Qed.

(** The loop over the consumers when every failure finds a reader. *)
Lemma stops_all_taken (order : list (string * Consumer)) : forall ch : Channels,
  (length (stopFailures order) <= centralErrTaken ch)%nat ->
  exists ch' : Channels,
    steps (map stopConsumer order) ch
    = (flat_map completedStop order, ch', Unblocked)
    /\ shutdownSignalRoom ch' = shutdownSignalRoom ch.
Proof.
  induction order as [| entry rest IH]; intros ch L.
  - exists ch. split; reflexivity.
  - rewrite map_cons, steps_cons, completedStop_cons.
    rewrite stopFailures_cons in L.
    destruct (StopConsuming entry.2 true true) as [err |] eqn:Es.
    + simpl length in L.
      destruct (centralErrTaken ch) as [| n] eqn:E; [lia |].
      rewrite (stopConsumer_taken entry ch err n Es E).
      destruct (IH {| centralErrTaken := n;
                      shutdownSignalRoom := shutdownSignalRoom ch |})
        as (ch' & -> & R); [simpl; lia |].
      exists ch'. split; [reflexivity | exact R].
    + rewrite (stopConsumer_quiet entry ch Es).
      destruct (IH ch L) as (ch' & -> & R).
      exists ch'. split; [reflexivity | exact R].
Qed.

(** The loop over the consumers when some failure finds no reader: it is
    stuck in the send of the first such failure, the consumers after that
    one untouched. *)
Lemma stops_stuck (order : list (string * Consumer)) : forall ch : Channels,
  (centralErrTaken ch < length (stopFailures order))%nat ->
  exists (before : list (string * Consumer)) (entry : string * Consumer)
    (err : failure) (after : list (string * Consumer)) (ch' : Channels),
    order = before ++ entry :: after
    /\ StopConsuming entry.2 true true = Some err
    /\ length (stopFailures before) = centralErrTaken ch
    /\ steps (map stopConsumer order) ch
       = (flat_map completedStop before
          ++ [ConsumerStopConsuming entry.1 entry.2 true true],
          ch', BlockedOnCentralErr (collaboratorError err)).
Proof.
  induction order as [| first rest IH]; intros ch L.
  - simpl in L. lia.
  - rewrite map_cons, steps_cons.
    rewrite stopFailures_cons in L.
    destruct (StopConsuming first.2 true true) as [err |] eqn:Es.
    + simpl length in L.
      destruct (centralErrTaken ch) as [| n] eqn:E.
      * rewrite (stopConsumer_stuck first ch err Es E).
        exists [], first, err, rest, ch.
        split; [reflexivity |]. split; [exact Es |].
        split; reflexivity.
      * rewrite (stopConsumer_taken first ch err n Es E).
        destruct (IH {| centralErrTaken := n;
                        shutdownSignalRoom := shutdownSignalRoom ch |})
          as (before & entry & err' & after & ch' & -> & Hs & Hl & ->);
          [simpl; lia |].
        exists (first :: before), entry, err', after, ch'.
        rewrite stopFailures_cons, completedStop_cons, Es.
        simpl length. simpl in Hl. rewrite Hl.
        split; [reflexivity |]. split; [exact Hs |].
        split; reflexivity.
    + rewrite (stopConsumer_quiet first ch Es).
      destruct (IH ch L)
        as (before & entry & err' & after & ch' & -> & Hs & Hl & ->).
      exists (first :: before), entry, err', after, ch'.
      rewrite stopFailures_cons, completedStop_cons, Es.
      split; [reflexivity |]. split; [exact Hs |].
      split; [exact Hl | reflexivity].
Qed.

Lemma Shutdown_with_room (stopConsumers : bool)
    (order : list (string * Consumer)) rs (ch : Channels) :
  shutdownSignalRoom ch = true ->
  Shutdown stopConsumers order rs ch
  = match (if stopConsumers then steps (map stopConsumer order) else skip)
            {| centralErrTaken := centralErrTaken ch;
               shutdownSignalRoom := false |} with
    | (evs, ch', Unblocked) =>
        ([PublisherStopAutoPublish; Sleep 1000000000; ShutdownSignalSend true;
          Sleep 1000000000] ++ evs ++ [ConnectionPoolShutdown],
         ch', Unblocked)
    | (evs, ch', stuck) =>
        ([PublisherStopAutoPublish; Sleep 1000000000; ShutdownSignalSend true;
          Sleep 1000000000] ++ evs,
         ch', stuck)
    end.
Proof.
  intros Room. unfold Shutdown. cbn [steps].
  unfold andThen, emit, sendShutdownSignal, skip. rewrite Room.
  cbn [app fst snd].
  destruct ((if stopConsumers then steps (map stopConsumer order) else _) _)
    as [[evs ch'] progress].
  destruct progress; reflexivity.
Qed.

(** C7, as the code has it. [Shutdown] stops the auto-publish loop and sleeps
    one second. If the shutdown signal has room, it sends the signal and
    sleeps one second; then, if asked to, it stops the registered consumers
    one by one, each once, in the order in which the registry is traversed,
    sending each failure to the central error stream before it goes on; and
    at the end it shuts the Connection Pool down. All this is done if every
    failure it sends is taken by a reader. At the first failure that no
    reader takes it is stuck in the send: the consumers that come after in
    the traversal are not stopped and the Connection Pool is not shut down.
    If the shutdown signal has no room it is stuck in that send, before any
    consumer. *)
Theorem shutdown_sequence (stopConsumers : bool)
    (order : list (string * Consumer)) rs (ch : Channels) :
  Permutation order (map_to_list (consumers rs)) ->
  (shutdownSignalRoom ch = true ->
   (stopConsumers = true ->
    (length (stopFailures order) <= centralErrTaken ch)%nat) ->
   (Shutdown stopConsumers order rs ch).1.1
   = [PublisherStopAutoPublish; Sleep 1000000000; ShutdownSignalSend true;
      Sleep 1000000000]
     ++ (if stopConsumers then flat_map completedStop order else [])
     ++ [ConnectionPoolShutdown]
   /\ (Shutdown stopConsumers order rs ch).2 = Unblocked)
  /\ (forall entry : string * Consumer,
        completedStop entry
        = ConsumerStopConsuming entry.1 entry.2 true true
          :: match StopConsuming entry.2 true true with
             | Some err => [CentralErrSend (collaboratorError err)]
             | None => []
             end)
  /\ NoDup (omap stoppedConsumer (flat_map completedStop order))
  /\ (forall (name : string) (consumer : Consumer),
        In (name, consumer) (omap stoppedConsumer (flat_map completedStop order))
        <-> consumers rs !! name = Some consumer)
  /\ omap centralError (flat_map completedStop order)
     = omap (fun entry => collaboratorError <$> StopConsuming entry.2 true true)
         order
  /\ (shutdownSignalRoom ch = true -> stopConsumers = true ->
      (centralErrTaken ch
       < length (omap (fun entry =>
                         collaboratorError <$> StopConsuming entry.2 true true)
                   order))%nat ->
      exists (before : list (string * Consumer)) (entry : string * Consumer)
        (err : failure) (after : list (string * Consumer)),
        order = before ++ entry :: after
        /\ StopConsuming entry.2 true true = Some err
        /\ length (omap (fun entry =>
                           collaboratorError <$> StopConsuming entry.2 true true)
                     before)
           = centralErrTaken ch
        /\ (Shutdown stopConsumers order rs ch).1.1
           = [PublisherStopAutoPublish; Sleep 1000000000;
              ShutdownSignalSend true; Sleep 1000000000]
             ++ flat_map completedStop before
             ++ [ConsumerStopConsuming entry.1 entry.2 true true]
        /\ (Shutdown stopConsumers order rs ch).2
           = BlockedOnCentralErr (collaboratorError err))
  /\ (shutdownSignalRoom ch = false ->
      Shutdown stopConsumers order rs ch
      = ([PublisherStopAutoPublish; Sleep 1000000000], ch,
         BlockedOnShutdownSignal true)).
Proof.
  intros P. rewrite stops_stopped.
  split; [| split; [reflexivity | split; [| split; [| split; [| split]]]]].
  - intros Room Taken. rewrite (Shutdown_with_room _ _ _ _ Room).
    destruct stopConsumers.
    + destruct (stops_all_taken order
                  {| centralErrTaken := centralErrTaken ch;
                     shutdownSignalRoom := false |})
        as (ch' & -> & _); [simpl; auto |].
      split; reflexivity.
    + split; reflexivity.
  - rewrite P. apply NoDup_map_to_list.
  - intros name consumer.
    rewrite <- elem_of_map_to_list, <- list_elem_of_In.
    split; intros H.
    + rewrite <- P. exact H.
    + rewrite P. exact H.
  - apply stops_reported.
  - intros Room -> Few. rewrite (Shutdown_with_room _ _ _ _ Room).
    destruct (stops_stuck order
                {| centralErrTaken := centralErrTaken ch;
                   shutdownSignalRoom := false |})
      as (before & entry & err & after & ch' & Eo & Es & El & ->);
      [exact Few |].
    exists before, entry, err, after.
    split; [exact Eo |]. split; [exact Es |]. split; [exact El |].
    split; reflexivity.
  - intros Room. unfold Shutdown. cbn [steps].
    unfold andThen, emit, sendShutdownSignal, skip. rewrite Room. reflexivity.
Qed.

End ServiceFacts.

Section MessageFacts.

Context {Channel : Type}.
Variable answer :
  list (Channel * ChannelCall) -> Channel -> ChannelCall -> option failure.

Implicit Types (msg : @ReceivedMessage Channel)
  (history : list (Channel * ChannelCall)).

(** C9. On a message that is not ackable, or that has no channel,
    [Acknowledge], [Nack] and [Reject] return an error of their own and
    make no call on a channel. On an ackable message with its channel they
    make the call whatever the history holds, calls for the same message
    included, and return the channel's answer: a second invocation is
    neither noticed nor refused here. *)
Theorem settle_needs_ackable_and_channel msg (requeue : bool) history :
  (IsAckable msg = false \/ amqpChan msg = None ->
   (exists text, Acknowledge answer msg history = (Some (errorsNew text), history))
   /\ (exists text, Nack answer msg requeue history
                    = (Some (errorsNew text), history))
   /\ (exists text, Reject answer msg requeue history
                    = (Some (errorsNew text), history)))
  /\ (forall ch : Channel,
        IsAckable msg = true -> amqpChan msg = Some ch ->
        Acknowledge answer msg history
        = (collaboratorError
             <$> answer history ch (ChannelAck (deliveryTag msg) false),
           history ++ [(ch, ChannelAck (deliveryTag msg) false)])
        /\ Nack answer msg requeue history
           = (collaboratorError
                <$> answer history ch
                      (ChannelNack (deliveryTag msg) false requeue),
              history ++ [(ch, ChannelNack (deliveryTag msg) false requeue)])
        /\ Reject answer msg requeue history
           = (collaboratorError
                <$> answer history ch (ChannelReject (deliveryTag msg) requeue),
              history ++ [(ch, ChannelReject (deliveryTag msg) requeue)])
        /\ (Acknowledge answer msg (Acknowledge answer msg history).2).2
           = history
             ++ [(ch, ChannelAck (deliveryTag msg) false);
                 (ch, ChannelAck (deliveryTag msg) false)]).
Proof.
  unfold Acknowledge, Nack, Reject, onChannel. split.
  - intros [H | H].
    + rewrite H. simpl. repeat split; eexists; reflexivity.
    + rewrite H. destruct (IsAckable msg); simpl;
        repeat split; eexists; reflexivity.
  - intros ch Ha Hc. rewrite Ha, Hc. simpl.
    rewrite <- app_assoc. repeat split; reflexivity.
Qed.

End MessageFacts.

Section ConcurrencyFacts.

Context {X : External} {C : Collaborators}.

Implicit Types (rs : RabbitService) (call : Call).

Local Arguments AddUint64 : simpl never.
Local Arguments buildPayload : simpl never.

(** A caller that runs alone does what the entry point does: the three
    steps of the interleaving model compose to [Publish], or to
    [PublishWithConfirmation]. *)
Lemma run_alone call rs :
  run [0; 0; 0]%nat ([newCaller [call]], {| service := rs; trace := [] |})
  = ([{| pending := []; stage := AtEntry;
         returned := [(callAlone call rs).1.1] |}],
     {| service := (callAlone call rs).1.2;
        trace := map (pair 0%nat) (callAlone call rs).2 |}).
Proof.
  destruct (callInvalid_dec call) as [V | V].
  - rewrite callAlone_invalid by exact V.
    apply guard_spec in V.
    unfold run, step, stepCaller, newCaller. simpl. rewrite V. reflexivity.
  - rewrite callAlone_valid by exact V.
    apply guard_false in V.
    unfold run, step, stepCaller, newCaller. simpl. rewrite V. simpl.
    rewrite buildPayload_setLetterCount.
    destruct (buildPayload _ _ _ _ _); reflexivity.
Qed.

(** The three kinds of step, for a caller with a call in hand. *)
Lemma step_entry (i : nat) (cs : list Caller) (sh : Shared) call
    (rest : list Call) (out : list (option error)) :
  cs !! i = Some {| pending := call :: rest; stage := AtEntry; returned := out |} ->
  ~ callInvalid call ->
  step i (cs, sh)
  = (<[i := {| pending := call :: rest;
               stage := Loaded (letterCount (service sh));
               returned := out |}]> cs,
     sh).
Proof.
  intros L V. apply guard_false in V.
  unfold step, stepCaller. simpl. rewrite L. simpl. rewrite V. reflexivity.
Qed.

Lemma step_loaded (i : nat) (cs : list Caller) (sh : Shared) call
    (rest : list Call) (out : list (option error)) (currentCount : Z) :
  cs !! i = Some {| pending := call :: rest; stage := Loaded currentCount;
                    returned := out |} ->
  step i (cs, sh)
  = (<[i := {| pending := call :: rest; stage := Added currentCount;
               returned := out |}]> cs,
     {| service :=
          setLetterCount (AddUint64 (letterCount (service sh)) 1) (service sh);
        trace := trace sh |}).
Proof.
  intros L. unfold step, stepCaller. simpl. rewrite L. reflexivity.
Qed.

Lemma step_added (i : nat) (cs : list Caller) (sh : Shared) call
    (rest : list Call) (out : list (option error)) (currentCount : Z)
    (data : list Byte.byte) :
  cs !! i = Some {| pending := call :: rest; stage := Added currentCount;
                    returned := out |} ->
  buildPayload (callInput call) currentCount (callWrapPayload call)
    (callMetadata call) (service sh) = inr data ->
  step i (cs, sh)
  = (<[i := {| pending := rest; stage := AtEntry; returned := out ++ [None] |}]> cs,
     {| service := service sh;
        trace :=
          trace sh
          ++ [(i,
               handOff (entryPoint call)
                 (newLetter currentCount data (callExchangeName call)
                    (callRoutingKey call)))] |}).
Proof.
  intros L P. unfold step, stepCaller. simpl. rewrite L. simpl. rewrite P.
  reflexivity.
Qed.

Lemma step_added_failed (i : nat) (cs : list Caller) (sh : Shared) call
    (rest : list Call) (out : list (option error)) (currentCount : Z)
    (err : failure) :
  cs !! i = Some {| pending := call :: rest; stage := Added currentCount;
                    returned := out |} ->
  buildPayload (callInput call) currentCount (callWrapPayload call)
    (callMetadata call) (service sh) = inl err ->
  step i (cs, sh)
  = (<[i := {| pending := rest; stage := AtEntry;
               returned := out ++ [Some (collaboratorError err)] |}]> cs,
     sh).
Proof.
  intros L P. unfold step, stepCaller. simpl. rewrite L. simpl. rewrite P.
  destruct sh. reflexivity.
Qed.

Lemma run_cons (i : nat) (schedule : list nat) (st : list Caller * Shared) :
  run (i :: schedule) st = run schedule (step i st).
Proof. reflexivity. Qed.

Lemma handOff_handed (p : EntryPoint) (l : Letter) :
  handedLetter (handOff p l) = Some l.
Proof. destruct p; reflexivity. Qed.

(** X4. Two callers whose loads both come before either add read the same
    count: their letters carry the same LetterID, and the counter ends two
    further, so that the next value is never given to a letter. *)
Lemma lost_update call1 call2 rs (data1 data2 : list Byte.byte) :
  ~ callInvalid call1 -> ~ callInvalid call2 ->
  buildPayload (callInput call1) (letterCount rs) (callWrapPayload call1)
    (callMetadata call1) rs = inr data1 ->
  buildPayload (callInput call2) (letterCount rs) (callWrapPayload call2)
    (callMetadata call2) rs = inr data2 ->
  let final :=
    run [0; 1; 0; 1; 0; 1]%nat
      ([newCaller [call1]; newCaller [call2]],
       {| service := rs; trace := [] |}) in
  handedIDs (trace final.2) = [(0%nat, letterCount rs); (1%nat, letterCount rs)]
  /\ letterCount (service final.2)
     = AddUint64 (AddUint64 (letterCount rs) 1) 1.
Proof.
  intros V1 V2 P1 P2 final. subst final. unfold newCaller.
  rewrite run_cons, (step_entry 0 _ _ call1 [] []) by (reflexivity || assumption).
  rewrite run_cons, (step_entry 1 _ _ call2 [] []) by (reflexivity || assumption).
  rewrite run_cons, (step_loaded 0 _ _ call1 [] [] (letterCount rs))
    by reflexivity.
  rewrite run_cons, (step_loaded 1 _ _ call2 [] [] (letterCount rs))
    by reflexivity.
  rewrite run_cons,
    (step_added 0 _ _ call1 [] [] (letterCount rs) data1)
    by (reflexivity || (rewrite <- P1; reflexivity)).
  rewrite run_cons,
    (step_added 1 _ _ call2 [] [] (letterCount rs) data2)
    by (reflexivity || (rewrite <- P2; reflexivity)).
  unfold run, handedIDs. simpl. rewrite !handOff_handed. simpl.
  split; reflexivity.
Qed.

(** A caller that loads the counter before a failing call adds to it is
    given the value that the failing call uses up: the failing call returns
    its failure with nothing handed over, and the letter handed over after
    that carries the LetterID of the failed call. *)
Lemma stale_load_takes_consumed_id call1 call2 rs (err : failure)
    (data2 : list Byte.byte) :
  ~ callInvalid call1 -> ~ callInvalid call2 ->
  buildPayload (callInput call1) (letterCount rs) (callWrapPayload call1)
    (callMetadata call1) rs = inl err ->
  buildPayload (callInput call2) (letterCount rs) (callWrapPayload call2)
    (callMetadata call2) rs = inr data2 ->
  let opened :=
    run [0; 1; 0; 0]%nat
      ([newCaller [call1]; newCaller [call2]],
       {| service := rs; trace := [] |}) in
  let final := run [1; 1]%nat opened in
  map returned opened.1 = [[Some (collaboratorError err)]; []]
  /\ trace opened.2 = []
  /\ letterCount (service opened.2) = AddUint64 (letterCount rs) 1
  /\ map returned final.1 = [[Some (collaboratorError err)]; [None]]
  /\ handedIDs (trace final.2) = [(1%nat, letterCount rs)]
  /\ letterCount (service final.2)
     = AddUint64 (AddUint64 (letterCount rs) 1) 1.
Proof.
  intros V1 V2 P1 P2 opened final. subst final opened. unfold newCaller.
  rewrite run_cons, (step_entry 0 _ _ call1 [] []) by (reflexivity || assumption).
  rewrite run_cons, (step_entry 1 _ _ call2 [] []) by (reflexivity || assumption).
  rewrite run_cons, (step_loaded 0 _ _ call1 [] [] (letterCount rs))
    by reflexivity.
  rewrite run_cons,
    (step_added_failed 0 _ _ call1 [] [] (letterCount rs) err)
    by (reflexivity || (rewrite <- P1; reflexivity)).
  change (run [] ?st) with st.
  rewrite run_cons, (step_loaded 1 _ _ call2 [] [] (letterCount rs))
    by reflexivity.
  rewrite run_cons,
    (step_added 1 _ _ call2 [] [] (letterCount rs) data2)
    by (reflexivity || (rewrite <- P2; reflexivity)).
  unfold run, handedIDs. simpl. rewrite !handOff_handed. simpl.
  repeat split; reflexivity.
Qed.

End ConcurrencyFacts.

(** * The properties on the concrete collaborators *)

(** C1. Two concurrent callers of [Publish] whose loads of the counter both
    precede either add are given the same LetterID: with the counter at 0,
    both letters carry 0, both calls report success, and the counter ends
    at 2. *)
Theorem concurrent_callers_share_LetterID :
  handedIDs (trace demoRace.2) = [(0%nat, 0); (1%nat, 0)]
  /\ map returned demoRace.1 = [[None]; [None]]
  /\ letterCount (service demoRace.2) = 2
  /\ map snd (trace demoRace.2)
     = [PublisherPublish
          (newLetter 0 (String.list_byte_of_string "first") "orders" "new");
        PublisherPublish
          (newLetter 0 (String.list_byte_of_string "second") "orders" "new")].
Proof. vm_compute. repeat split; reflexivity. Qed.

(** C10. A LetterID used up by a call that failed in the payload pipeline is
    given to a later letter when another caller loaded the counter before
    the failed call added to it: with the counter at 5, the first caller's
    call returns the pipeline's failure, nothing handed over and the counter
    at 6; after that the second caller hands over its letter, which carries
    LetterID 5, and the counter ends at 7. *)
Theorem failed_call_id_is_given_again :
  map returned demoGapOpened.1
  = [[Some (collaboratorError "json: unsupported value")]; []]
  /\ map pending demoGapOpened.1 = [[]; [demoCall "second"]]
  /\ trace demoGapOpened.2 = []
  /\ letterCount (service demoGapOpened.2) = 6
  /\ map returned demoGapRefilled.1
     = [[Some (collaboratorError "json: unsupported value")]; [None]]
  /\ map snd (trace demoGapRefilled.2)
     = [PublisherPublish
          (newLetter 5 (String.list_byte_of_string "second") "orders" "new")]
  /\ handedIDs (trace demoGapRefilled.2) = [(1%nat, 5)]
  /\ letterCount (service demoGapRefilled.2) = 7.
Proof. vm_compute. repeat split; reflexivity. Qed.

Lemma publish_orders_new_witness :
  letterCount (demoService 5) = 5
  /\ Publish (C := demoCollaborators) (Some "hello") "orders" "new" false
       EmptyString (demoService 5)
     = (None, setLetterCount 6 (demoService 5),
        [PublisherPublish
           {| LetterID := 5;
              Body := String.list_byte_of_string "hello";
              LetterEnvelope :=
                {| Exchange := "orders";
                   RoutingKey := "new";
                   ContentType := "application/json";
                   Mandatory := false;
                   Immediate := false;
                   DeliveryMode := 2 |} |}]).
Proof.
  split; [reflexivity |].
  refine (proj1 (publish_orders_new (C := demoCollaborators) "hello"
                   (String.list_byte_of_string "hello") (demoService 5) _ _));
    reflexivity.
Defined.

Lemma guard_examples :
  (Publish (C := demoCollaborators) None "orders" "new" false EmptyString
     (demoService 5)).1.1
  = Some (validationError ViaPublish)
  /\ (PublishWithConfirmation (C := demoCollaborators) (Some "hello")
        EmptyString EmptyString true "meta" (demoService 5)).1.1
     = Some (validationError ViaPublishWithConfirmation)
  /\ (Publish (C := demoCollaborators) (Some "hello") EmptyString "new" false
        EmptyString (demoService 5)).1.1
     = None.
Proof. repeat split; reflexivity. Qed.


Lemma failed_call_leaves_gap_witness :
  (callAlone (C := demoCollaborators) (demoCall "unserializable")
     (demoService 5)).1.1
  = Some (collaboratorError "json: unsupported value")
  /\ letterCount
       (callAlone (C := demoCollaborators) (demoCall "unserializable")
          (demoService 5)).1.2 = 6
  /\ map LetterID
       (omap handedLetter
          (callsInTurn (C := demoCollaborators)
             [demoCall "a"; demoCall "b"]
             (callAlone (C := demoCollaborators) (demoCall "unserializable")
                (demoService 5)).1.2).2)
     = [6; 7]
  /\ forall l : Letter,
       In l (omap handedLetter
               (callsInTurn (C := demoCollaborators)
                  [demoCall "a"; demoCall "b"]
                  (callAlone (C := demoCollaborators)
                     (demoCall "unserializable") (demoService 5)).1.2).2) ->
       LetterID l <> 5.
Proof.
  pose proof (failed_call_leaves_gap (C := demoCollaborators)
                (demoCall "unserializable") (demoService 5)
                "json: unsupported value" [demoCall "a"; demoCall "b"])
    as G.
  destruct G as (G1 & _ & _ & _ & G5).
  - intros [H | [H _]]; discriminate.
  - reflexivity.
  - reflexivity.
  - split; [exact G1 |]. split; [reflexivity |]. split; [reflexivity |].
    exact G5.
Defined.

Lemma receipts_run_example :
  processPublishReceipts (demoService 9)
    [ {| seesShutdown := false;
         polled := Some {| ReceiptLetterID := 7;
                           FailedLetter := Some (newLetter 7 [] "orders" "new");
                           Success := false; Error := None |} |};
      {| seesShutdown := false;
         polled := Some {| ReceiptLetterID := 8; FailedLetter := None;
                           Success := false; Error := None |} |};
      {| seesShutdown := false;
         polled := Some {| ReceiptLetterID := 6; FailedLetter := None;
                           Success := true; Error := None |} |} ]
    (demoReaders 2)
  = ([CentralErrSend (errorsNew "failed to publish letter 7... retrying");
      PublisherQueueLetter (newLetter 7 [] "orders" "new");
      CentralErrSend
        (errorsNew
           "failed to publish a letter 8 and unable to retry as a copy of the letter was not received")],
     demoReaders 0, Unblocked)
  /\ fmt_d 18446744073709551615 = "18446744073709551615".
Proof. split; reflexivity. Qed.

(** C4, as stated, fails. No reader takes from the central error stream: the
    loop, given a failed receipt that carries its letter, is stuck in the
    send of the diagnostic and has not queued the letter. *)
Lemma unread_diagnostic_holds_the_retry :
  processPublishReceipts (demoService 9)
    [ {| seesShutdown := false;
         polled := Some {| ReceiptLetterID := 7;
                           FailedLetter := Some (newLetter 7 [] "orders" "new");
                           Success := false; Error := None |} |} ]
    demoNoReader
  = ([], demoNoReader,
     BlockedOnCentralErr (errorsNew "failed to publish letter 7... retrying"))
  /\ omap requeuedLetter
       (processPublishReceipts (demoService 9)
          [ {| seesShutdown := false;
               polled := Some {| ReceiptLetterID := 7;
                                 FailedLetter :=
                                   Some (newLetter 7 [] "orders" "new");
                                 Success := false; Error := None |} |} ]
          demoNoReader).1.1
     = [].
Proof. split; reflexivity. Qed.

Lemma custom_handler_owns_receipts_witness :
  (demoBuilt false EmptyString EmptyString (Some 7%nat)).1
  = inr (demoService 0)
  /\ omap startedTask (demoBuilt false EmptyString EmptyString (Some 7%nat)).2
     = [GoCollectConsumerErrors;
        GoCollectAutoPublisherErrors;
        GoMonitorForShutdown;
        GoInvokeProcessPublishReceipts (7%nat : @Handler demoTypes)]
  /\ omap centralError
       (runReceiptTask
          (GoInvokeProcessPublishReceipts (7%nat : @Handler demoTypes))
          (demoService 0)
          [ {| seesShutdown := false;
               polled := Some {| ReceiptLetterID := 3; FailedLetter := None;
                                 Success := false; Error := None |} |} ]
          demoNoReader)
     = [].
Proof.
  assert (H : (demoBuilt false EmptyString EmptyString (Some 7%nat)).1
              = inr (demoService 0))
    by (vm_compute; reflexivity).
  split; [exact H |].
  pose proof (custom_handler_owns_receipts (C := demoCollaborators)
                (demoConfig false) EmptyString EmptyString 7%nat demoOrder
                (demoService 0) H) as [T L].
  split; [exact T |].
  apply L.
Defined.

Lemma key_derived_when_requested_witness :
  exists rs,
    (demoBuilt true "secret" "pepper" None).1 = inr rs
    /\ omap derivedKey (demoBuilt true "secret" "pepper" None).2
       = [("secret", "pepper", (1, 64, 2, 32))]
    /\ Hashkey (SeasoningEncryptionConfig (Config rs))
       = String.list_byte_of_string "secretpepper"
    /\ encryptionConfigured rs = true.
Proof.
  destruct (demoBuilt true "secret" "pepper" None).1 as [err | rs] eqn:E;
    [vm_compute in E; discriminate |].
  exists rs. split; [reflexivity |].
  pose proof (key_derived_when_requested (C := demoCollaborators)
                (demoConfig true) "secret" "pepper" None demoOrder rs E)
    as [K _].
  destruct K as (K1 & K2 & K3).
  - repeat split; discriminate || reflexivity.
  - split; [exact K1 |]. split; [rewrite K2; reflexivity | exact K3].
Defined.

(** C6, as stated, fails. The flag is set and the salt is empty: no key is
    derived and the service is not marked as configured, yet the
    configuration handed to the payload pipeline still has [Enabled] set,
    and a pipeline that encrypts whenever that flag is set (here: reverses
    the bytes) does so for the letters of this service. *)
Lemma encryption_flag_still_reaches_pipeline :
  exists rs : @RabbitService demoTypes,
    (demoBuilt true "secret" EmptyString None).1 = inr rs
    /\ omap derivedKey (demoBuilt true "secret" EmptyString None).2 = []
    /\ encryptionConfigured rs = false
    /\ Enabled (SeasoningEncryptionConfig (Config rs)) = true
    /\ omap handedLetter
         (Publish (C := demoCollaborators) (Some "abc") "orders" "new" false
            EmptyString rs).2
       = [newLetter 0 (String.list_byte_of_string "cba") "orders" "new"]
    /\ omap handedLetter
         (Publish (C := demoCollaborators) (Some "abc") "orders" "new" false
            EmptyString (demoService 0)).2
       = [newLetter 0 (String.list_byte_of_string "abc") "orders" "new"].
Proof.
  eexists. split; [vm_compute; reflexivity |].
  repeat split; reflexivity.
Qed.

Lemma shutdown_sequence_witness :
  Permutation demoRegistryOrder (map_to_list (consumers (demoService 0)))
  /\ (Shutdown (C := demoCollaborators) true demoRegistryOrder (demoService 0)
        (demoReaders 1)).1.1
     = [PublisherStopAutoPublish;
        Sleep 1000000000;
        ShutdownSignalSend true;
        Sleep 1000000000;
        ConsumerStopConsuming "audit" (demoConsumer "stuck") true true;
        CentralErrSend (collaboratorError "consumer did not stop");
        ConsumerStopConsuming "billing" (demoConsumer "invoices") true true;
        ConnectionPoolShutdown]
  /\ (Shutdown (C := demoCollaborators) true demoRegistryOrder (demoService 0)
        (demoReaders 1)).2
     = Unblocked.
Proof.
  assert (P : Permutation demoRegistryOrder
                (map_to_list (consumers (demoService 0)))).
  { vm_compute. first [apply Permutation_refl | apply perm_swap]. }
  split; [exact P |].
  refine (proj1 (shutdown_sequence (C := demoCollaborators) true
                   demoRegistryOrder (demoService 0) (demoReaders 1) P)
            eq_refl _).
  intros _. vm_compute. lia.
Defined.

(** C7, as stated, fails. The first consumer fails to stop and no reader
    takes from the central error stream: [Shutdown] is stuck in the send of
    the failure, the second consumer is not stopped and the Connection Pool
    is not shut down. With a shutdown signal that has no room, [Shutdown]
    is stuck before it stops any consumer. *)
Lemma unread_failure_holds_shutdown :
  Shutdown (C := demoCollaborators) true demoRegistryOrder (demoService 0)
    demoNoReader
  = ([PublisherStopAutoPublish;
      Sleep 1000000000;
      ShutdownSignalSend true;
      Sleep 1000000000;
      ConsumerStopConsuming "audit" (demoConsumer "stuck") true true],
     {| centralErrTaken := 0; shutdownSignalRoom := false |},
     BlockedOnCentralErr (collaboratorError "consumer did not stop"))
  /\ Shutdown (C := demoCollaborators) true demoRegistryOrder (demoService 0)
       {| centralErrTaken := 1; shutdownSignalRoom := false |}
     = ([PublisherStopAutoPublish; Sleep 1000000000],
        {| centralErrTaken := 1; shutdownSignalRoom := false |},
        BlockedOnShutdownSignal true).
Proof. split; reflexivity. Qed.

Lemma settle_needs_ackable_and_channel_witness :
  Acknowledge demoAnswer (demoMessage false (Some 1%nat)) []
  = (Some (errorsNew "can't acknowledge, not an ackable message"), [])
  /\ Reject demoAnswer (demoMessage true None) true []
     = (Some (errorsNew "can't reject, internal channel is nil"), [])
  /\ Acknowledge demoAnswer (demoMessage true (Some 1%nat))
       (Acknowledge demoAnswer (demoMessage true (Some 1%nat)) []).2
     = (Some (collaboratorError "PRECONDITION_FAILED - unknown delivery tag"),
        [(1%nat, ChannelAck 41 false); (1%nat, ChannelAck 41 false)]).
Proof.
  split; [| split].
  - destruct (proj1 (settle_needs_ackable_and_channel demoAnswer
                       (demoMessage false (Some 1%nat)) true [])
                (or_introl eq_refl)) as [_ _].
    reflexivity.
  - reflexivity.
  - exact (proj1 (proj2 (settle_needs_ackable_and_channel demoAnswer
                           (demoMessage true (Some 1%nat)) true
                           [(1%nat, ChannelAck 41 false)])
                    1%nat eq_refl eq_refl)).
Defined.

(** * Further properties of the code *)

Section MorePublishFacts.

Context {X : External} {C : Collaborators}.

Implicit Types (input : option Value) (rs : RabbitService) (call : Call).

Lemma handOff_handed_letter (p : EntryPoint) (l : Letter) :
  handedLetter (handOff p l) = Some l.
Proof. destruct p; reflexivity. Qed.

(** X5. The two entry points differ in the Publisher operation they end in (and
    in the wording of the guard's error), in nothing else: they leave the
    service in the same state, fail together, hand over the same letter,
    and the confirmation variant always asks for a 300 ms window. *)
Theorem entry_points_agree input (exchangeName routingKey : string)
    (wrapPayload : bool) (metadata : string) rs :
  let p := Publish input exchangeName routingKey wrapPayload metadata rs in
  let pc :=
    PublishWithConfirmation input exchangeName routingKey wrapPayload metadata rs in
  p.1.2 = pc.1.2
  /\ omap handedLetter p.2 = omap handedLetter pc.2
  /\ (p.1.1 = None <-> pc.1.1 = None)
  /\ (forall err : failure,
        p.1.1 = Some (collaboratorError err)
        <-> pc.1.1 = Some (collaboratorError err))
  /\ (forall (l : Letter) (timeout : Z),
        In (PublisherPublishWithConfirmation l timeout) pc.2 ->
        timeout = 300000000)
  /\ (forall l : Letter,
        ~ In (PublisherPublishWithConfirmation l 300000000) p.2
        /\ ~ In (PublisherPublish l) pc.2).
Proof.
  intros p pc. subst p pc. unfold Publish, PublishWithConfirmation.
  destruct (isNil input || _); simpl.
  - repeat split; try discriminate; try tauto; intros H; inversion H.
  - rewrite !buildPayload_setLetterCount.
    destruct (buildPayload _ _ _ _ _); simpl.
    + repeat split; try discriminate; try tauto; auto.
    + split; [reflexivity |]. split; [reflexivity |].
      split; [tauto |]. split; [split; discriminate |].
      split.
      * intros l' timeout [H | []]. inversion H. reflexivity.
      * intros l'. split; intros [H | []]; discriminate.
Qed.

(** X6. The body of a wrapped letter is the wrapped payload built for the
    LetterID that the letter carries, with the caller's metadata. *)
Theorem wrapped_body_names_its_letter input (exchangeName routingKey : string)
    (metadata : string) rs (l : Letter) :
  In l (omap handedLetter
          (Publish input exchangeName routingKey true metadata rs).2)
  \/ In l (omap handedLetter
             (PublishWithConfirmation input exchangeName routingKey true
                metadata rs).2) ->
  CreateWrappedPayload input (LetterID l) metadata
    (SeasoningCompressionConfig (Config rs))
    (SeasoningEncryptionConfig (Config rs))
  = inr (Body l)
  /\ LetterID l = letterCount rs.
Proof.
  unfold Publish, PublishWithConfirmation.
  destruct (isNil input || _); simpl; [tauto |].
  destruct (CreateWrappedPayload input (letterCount rs) metadata _ _) eqn:E;
    simpl; [tauto |].
  intros [[<- | []] | [<- | []]]; simpl; auto.
Qed.

(** *** Calls in turn: numbering and accounting *)

Lemma AddUint64_small (c : Z) :
  0 <= c -> c + 1 < uint64_modulus -> AddUint64 c 1 = c + 1.
Proof. intros. unfold AddUint64. apply Z.mod_small. lia. Qed.

Lemma callAlone_cases call rs :
  (callInvalid call
   /\ callAlone call rs = (Some (validationError (entryPoint call)), rs, []))
  \/ (~ callInvalid call
      /\ exists (err : option error) (evs : list Event),
           callAlone call rs
           = (err, setLetterCount (AddUint64 (letterCount rs) 1) rs, evs)
           /\ ((exists f, err = Some (collaboratorError f) /\ evs = [])
               \/ (err = None
                   /\ exists l, omap handedLetter evs = [l]
                                /\ LetterID l = letterCount rs))).
Proof.
  destruct (callInvalid_dec call) as [V | V].
  - left. split; [exact V | apply callAlone_invalid, V].
  - right. split; [exact V |]. rewrite callAlone_valid by exact V. simpl.
    destruct (buildPayload _ _ _ _ _) as [f | data].
    + eexists _, _. split; [reflexivity |]. left. eauto.
    + eexists _, _. split; [reflexivity |]. right. split; [reflexivity |].
      eexists. split.
      * simpl. rewrite handOff_handed_letter. reflexivity.
      * reflexivity.
Qed.

Lemma passesGuard_false call : callInvalid call -> passesGuard call = false.
Proof.
  intros V. apply guard_spec in V. unfold passesGuard. rewrite V. reflexivity.
Qed.

Lemma passesGuard_true call : ~ callInvalid call -> passesGuard call = true.
Proof.
  intros V. apply guard_false in V. unfold passesGuard. rewrite V. reflexivity.
Qed.

Lemma setLetterCount_same rs : setLetterCount (letterCount rs) rs = rs.
Proof. destruct rs; reflexivity. Qed.

(** X1. Calls made in turn, before the counter wraps, are numbered in strictly
    increasing order, from the counter's value on: no LetterID is handed
    over twice and none goes backwards. *)
Theorem sequential_ids_increase (calls : list Call) : forall rs,
  0 <= letterCount rs ->
  letterCount rs + Z.of_nat (length calls) <= uint64_modulus ->
  StronglySorted Z.lt
    (map LetterID (omap handedLetter (callsInTurn calls rs).2))
  /\ Forall (fun id => letterCount rs <= id
                       < letterCount rs + Z.of_nat (length calls))
       (map LetterID (omap handedLetter (callsInTurn calls rs).2)).
Proof.
  induction calls as [| call rest IH]; intros rs R N.
  - split; constructor.
  - simpl callsInTurn.
    destruct (callAlone_cases call rs)
      as [[V E] | [V (err & evs & E & O)]]; rewrite E.
    + destruct (callsInTurn rest rs) as [[errs rs2] evs2] eqn:E2.
      simpl. specialize (IH rs R).
      rewrite E2 in IH. simpl in IH. simpl length in N.
      destruct IH as [S B]; [lia |]. split; [exact S |].
      eapply Forall_impl; [exact B |]. simpl. intros id Hid. simpl length. lia.
    + destruct rest as [| call' rest'].
      * simpl. rewrite app_nil_r.
        destruct O as [(f & _ & ->) | (_ & l & -> & Hl)].
        -- split; constructor.
        -- simpl. split; repeat constructor; lia.
      * remember (call' :: rest') as rest eqn:Hrest.
        assert (L : (1 <= Z.of_nat (length rest))%Z)
          by (subst rest; simpl length; lia).
        simpl length in N.
        assert (A : AddUint64 (letterCount rs) 1 = letterCount rs + 1)
          by (apply AddUint64_small; lia).
        specialize (IH (setLetterCount (AddUint64 (letterCount rs) 1) rs)).
        destruct (callsInTurn rest
                    (setLetterCount (AddUint64 (letterCount rs) 1) rs))
          as [[errs rs2] evs2] eqn:E2.
        simpl in IH. rewrite A in IH.
        destruct IH as [S B]; [lia | lia |].
        simpl. rewrite omap_app, map_app.
        destruct O as [(f & _ & ->) | (_ & l & -> & Hl)]; simpl.
        -- split; [exact S |].
           eapply Forall_impl; [exact B |]. simpl. intros id Hid. lia.
        -- split.
           ++ constructor; [exact S |].
              eapply Forall_impl; [exact B |]. simpl. intros id Hid. lia.
           ++ constructor; [lia |].
              eapply Forall_impl; [exact B |]. simpl. intros id Hid. lia.
Qed.

(** X2. The counter counts the calls that pass the guard, and only them: after a
    run of calls in turn the service differs from the one before in its
    counter alone, which has advanced (modulo [2^64]) by the number of calls
    that passed the guard; there is one result per call, one letter per
    [nil] result, and the results that are not the guard's error are as
    many as the calls that passed it. *)
Theorem counter_counts_reservations (calls : list Call) : forall rs,
  0 <= letterCount rs < uint64_modulus ->
  (callsInTurn calls rs).1.2
  = setLetterCount
      ((letterCount rs + Z.of_nat (length (List.filter passesGuard calls)))
       mod uint64_modulus)
      rs
  /\ length (callsInTurn calls rs).1.1 = length calls
  /\ length (omap handedLetter (callsInTurn calls rs).2)
     = length (List.filter isNil (callsInTurn calls rs).1.1)
  /\ length (List.filter passesGuard calls)
     = length (List.filter (fun r => negb (isRejection r))
                 (callsInTurn calls rs).1.1).
Proof.
  induction calls as [| call rest IH]; intros rs R.
  - simpl. rewrite Z.add_0_r, Z.mod_small by exact R.
    rewrite setLetterCount_same. auto.
  - simpl callsInTurn.
    destruct (callAlone_cases call rs)
      as [[V E] | [V (err & evs & E & O)]]; rewrite E.
    + specialize (IH rs R).
      destruct (callsInTurn rest rs) as [[errs rs2] evs2] eqn:E2.
      simpl in IH. destruct IH as (I1 & I2 & I3 & I4).
      simpl. rewrite (passesGuard_false _ V).
      destruct (entryPoint call); simpl; repeat split; auto.
    + specialize (IH (setLetterCount (AddUint64 (letterCount rs) 1) rs)
                    (AddUint64_range _ _)).
      destruct (callsInTurn rest
                  (setLetterCount (AddUint64 (letterCount rs) 1) rs))
        as [[errs rs2] evs2] eqn:E2.
      simpl in IH. destruct IH as (I1 & I2 & I3 & I4).
      simpl. rewrite (passesGuard_true _ V). simpl length.
      split; [| split; [| split]].
      * rewrite I1. unfold setLetterCount at 1 3. simpl. f_equal.
        unfold AddUint64. rewrite Zplus_mod_idemp_l. f_equal. lia.
      * lia.
      * rewrite omap_app, length_app, I3.
        destruct O as [(f & -> & ->) | (-> & l & -> & _)]; simpl; lia.
      * destruct O as [(f & -> & _) | (-> & _)]; simpl; lia.
Qed.

End MorePublishFacts.

Section InterleavingFacts.

Context {X : External} {C : Collaborators}.

Implicit Types (rs : RabbitService) (call : Call) (sh : Shared) (c : Caller).

Local Arguments AddUint64 : simpl never.
Local Arguments buildPayload : simpl never.

Lemma sorted_snoc (l : list Z) (a : Z) :
  StronglySorted Z.lt l -> Forall (fun x => x < a) l ->
  StronglySorted Z.lt (l ++ [a]).
Proof.
  induction 1 as [| x l S IH F]; intros B; simpl.
  - repeat constructor.
  - inversion B; subst. constructor; [auto |].
    apply Forall_app. split; [exact F | repeat constructor; assumption].
Qed.

Lemma idsOf_snoc (i j : nat) (tr : list (nat * Event)) (p : EntryPoint)
    (l : Letter) :
  idsOf j (handedIDs (tr ++ [(i, handOff p l)]))
  = idsOf j (handedIDs tr) ++ (if Nat.eqb i j then [LetterID l] else []).
Proof.
  unfold idsOf, handedIDs. rewrite omap_app. simpl.
  rewrite handOff_handed_letter. simpl.
  rewrite List.filter_app, map_app. simpl.
  destruct (Nat.eqb i j); reflexivity.
Qed.

Lemma callerOK_mono (count count' : Z) (ids : list Z) c :
  count <= count' -> callerOK count ids c -> callerOK count' ids c.
Proof.
  intros L [S B]. split; [exact S |].
  destruct (stage c).
  - eapply Forall_impl; [exact B |]. simpl. intros. lia.
  - destruct B. split; [assumption | lia].
  - destruct B. split; [assumption | lia].
Qed.

(** One step of a caller keeps what holds of it, moves the counter by at
    most one and leaves the other callers' letters alone. *)
Lemma stepCaller_ok (i : nat) c sh :
  0 <= letterCount (service sh) ->
  letterCount (service sh) + 1 < uint64_modulus ->
  callerOK (letterCount (service sh)) (idsOf i (handedIDs (trace sh))) c ->
  letterCount (service sh) <= letterCount (service (stepCaller i c sh).2)
  <= letterCount (service sh) + 1
  /\ callerOK (letterCount (service (stepCaller i c sh).2))
       (idsOf i (handedIDs (trace (stepCaller i c sh).2)))
       (stepCaller i c sh).1
  /\ forall j : nat, j <> i ->
       idsOf j (handedIDs (trace (stepCaller i c sh).2))
       = idsOf j (handedIDs (trace sh)).
Proof.
  intros R N [S B]. unfold stepCaller.
  destruct (pending c) as [| call rest].
  { simpl. split; [lia |]. split; [split; assumption | reflexivity]. }
  destruct (stage c) as [| cc | cc].
  - destruct (isNil (callInput call) || _); simpl.
    + split; [lia |]. split; [split; assumption | reflexivity].
    + split; [lia |]. split; [| reflexivity].
      split; [exact S |]. simpl. split; [exact B | lia].
  - simpl. rewrite (AddUint64_small _ R N). destruct B as [B L].
    split; [lia |]. split; [| reflexivity].
    split; [exact S |]. simpl. split; [exact B | lia].
  - destruct B as [B L].
    destruct (buildPayload _ _ _ _ _) as [f | data]; simpl.
    + split; [lia |]. split; [| reflexivity].
      split; [exact S |]. simpl.
      eapply Forall_impl; [exact B |]. simpl. intros. lia.
    + split; [lia |]. split.
      * rewrite idsOf_snoc, Nat.eqb_refl. simpl. split.
        -- apply sorted_snoc; assumption.
        -- apply Forall_app. split.
           ++ eapply Forall_impl; [exact B |]. simpl. intros. lia.
           ++ repeat constructor. exact L.
      * intros j Hj. rewrite idsOf_snoc.
        destruct (Nat.eqb_spec i j) as [-> | _]; [contradiction |].
        apply app_nil_r.
Qed.

Lemma step_ok (i : nat) (st : list Caller * Shared) :
  0 <= letterCount (service st.2) ->
  letterCount (service st.2) + 1 < uint64_modulus ->
  callersOK st ->
  letterCount (service st.2) <= letterCount (service (step i st).2)
  <= letterCount (service st.2) + 1
  /\ callersOK (step i st).
Proof.
  intros R N I. unfold step.
  destruct (st.1 !! i) as [c |] eqn:L; [| split; [lia | exact I]].
  pose proof (I i) as Ii. rewrite L in Ii.
  destruct (stepCaller_ok i c st.2 R N Ii) as (B & O & U).
  simpl. split; [exact B |].
  intros j. simpl.
  destruct (Nat.eq_dec j i) as [-> | Hj].
  - rewrite list_lookup_insert_eq by (eapply lookup_lt_Some; exact L).
    exact O.
  - rewrite list_lookup_insert_ne by congruence.
    rewrite (U j Hj). pose proof (I j) as Ij.
    destruct (st.1 !! j); [| exact Ij].
    eapply callerOK_mono; [| exact Ij]. lia.
Qed.

Lemma run_ok (schedule : list nat) : forall st : list Caller * Shared,
  0 <= letterCount (service st.2) ->
  letterCount (service st.2) + Z.of_nat (length schedule) < uint64_modulus ->
  callersOK st ->
  callersOK (run schedule st).
Proof.
  induction schedule as [| i rest IH]; intros st R N I; [exact I |].
  simpl length in N.
  destruct (step_ok i st R ltac:(lia) I) as [B I'].
  change (run (i :: rest) st) with (run rest (step i st)).
  apply IH; [lia | lia | exact I'].
Qed.

(** X3. Whatever the interleaving, the LetterIDs that one caller is given
    increase strictly from each of its calls to the next, as long as the
    counter does not wrap. *)
Theorem own_ids_increase (schedule : list nat) (callers : list (list Call))
    rs (i : nat) :
  0 <= letterCount rs ->
  letterCount rs + Z.of_nat (length schedule) < uint64_modulus ->
  StronglySorted Z.lt
    (idsOf i
       (handedIDs
          (trace (run schedule
                    (map newCaller callers,
                     {| service := rs; trace := [] |})).2))).
Proof.
  intros R N.
  pose proof (run_ok schedule
                (map newCaller callers, {| service := rs; trace := [] |})
                R N) as I.
  assert (I0 : callersOK
                 (map newCaller callers, {| service := rs; trace := [] |})).
  { intros j. simpl. rewrite list_lookup_fmap.
    destruct (callers !! j); simpl; [| reflexivity].
    split; constructor. }
  specialize (I I0 i).
  destruct (_ !! i); [exact (proj1 I) | rewrite I; constructor].
Qed.

End InterleavingFacts.

Section RegistryFacts.

Context {X : External} {C : Collaborators}.

Implicit Types (rs : RabbitService) (pool : ConnectionPool)
  (registry : gmap string Consumer) (order : list (string * ConsumerConfig)).

Lemma createConsumers_cons (consumerName : string)
    (consumerConfig : ConsumerConfig) order pool registry :
  createConsumers ((consumerName, consumerConfig) :: order) pool registry
  = match registered consumerConfig pool with
    | inl err => inl err
    | inr consumer =>
        createConsumers order pool (<[consumerName := consumer]> registry)
    end.
Proof.
  unfold registered. simpl.
  destruct (NewConsumerFromConfig consumerConfig pool); reflexivity.
Qed.

Lemma registered_inr (consumerConfig : ConsumerConfig) pool
    (consumer : Consumer) :
  registered consumerConfig pool = inr consumer
  <-> exists built : Consumer,
        NewConsumerFromConfig consumerConfig pool = inr built
        /\ consumerCore consumer = consumerCore built
        /\ ConsumerName consumer
           = match osHostname with
             | inr hostName => hostName +:+ "-" +:+ ConsumerName built
             | inl _ => ConsumerName built
             end.
Proof.
  unfold registered.
  destruct (NewConsumerFromConfig consumerConfig pool) as [f | built]; split.
  - discriminate.
  - intros (b & H & _). discriminate.
  - intros [= <-]. exists built.
    destruct osHostname; simpl; auto.
  - intros (b & [= <-] & Hc & Hn). f_equal.
    destruct consumer as [n k]. simpl in *. subst.
    destruct osHostname; destruct built; reflexivity.
Qed.

Lemma registered_inl (consumerConfig : ConsumerConfig) pool (err : failure) :
  registered consumerConfig pool = inl err
  <-> NewConsumerFromConfig consumerConfig pool = inl err.
Proof.
  unfold registered.
  destruct (NewConsumerFromConfig consumerConfig pool); split; congruence.
Qed.

Lemma createConsumers_inr order : forall pool registry result,
  NoDup order.*1 ->
  createConsumers order pool registry = inr result ->
  (forall (name : string) (consumerConfig : ConsumerConfig),
     (name, consumerConfig) ∈ order ->
     exists consumer : Consumer,
       registered consumerConfig pool = inr consumer
       /\ result !! name = Some consumer)
  /\ (forall name : string, name ∉ order.*1 -> result !! name = registry !! name).
Proof.
  induction order as [| [n0 cfg0] rest IH]; intros pool registry result D H.
  - injection H as <-. split; [| reflexivity].
    intros name cfg Hin. inversion Hin.
  - rewrite createConsumers_cons in H.
    destruct (registered cfg0 pool) as [f | c0] eqn:E; [discriminate |].
    simpl in D. apply NoDup_cons in D as [Hn0 D].
    destruct (IH pool _ result D H) as [I1 I2].
    split.
    + intros name cfg Hin. apply elem_of_cons in Hin as [[= -> ->] | Hin].
      * exists c0. split; [exact E |].
        rewrite (I2 n0 Hn0). apply lookup_insert_eq.
      * apply I1, Hin.
    + intros name Hn. simpl in Hn. apply not_elem_of_cons in Hn as [Hne Hn].
      rewrite (I2 name Hn). apply lookup_insert_ne. congruence.
Qed.

Lemma createConsumers_succeeds order : forall pool registry,
  (forall (name : string) (consumerConfig : ConsumerConfig),
     (name, consumerConfig) ∈ order ->
     exists consumer : Consumer, registered consumerConfig pool = inr consumer) ->
  exists result, createConsumers order pool registry = inr result.
Proof.
  induction order as [| [n0 cfg0] rest IH]; intros pool registry A.
  - eexists. reflexivity.
  - rewrite createConsumers_cons.
    destruct (A n0 cfg0) as [c0 ->]; [left |].
    apply IH. intros name cfg Hin. apply (A name cfg). right. exact Hin.
Qed.

Lemma order_of_map (configs : gmap string ConsumerConfig) order :
  order ≡ₚ map_to_list configs ->
  NoDup order.*1
  /\ forall (name : string) (consumerConfig : ConsumerConfig),
       (name, consumerConfig) ∈ order <-> configs !! name = Some consumerConfig.
Proof.
  intros P. split.
  - rewrite P. apply NoDup_fst_map_to_list.
  - intros name cfg. rewrite P. apply elem_of_map_to_list.
Qed.

Lemma registry_lookup
    (configs : gmap string ConsumerConfig) order pool registry :
  order ≡ₚ map_to_list configs ->
  createConsumers order pool ∅ = inr registry ->
  forall name : string,
    match configs !! name with
    | Some consumerConfig =>
        exists built consumer : Consumer,
          NewConsumerFromConfig consumerConfig pool = inr built
          /\ registry !! name = Some consumer
          /\ consumerCore consumer = consumerCore built
          /\ ConsumerName consumer
             = match osHostname with
               | inr hostName => hostName +:+ "-" +:+ ConsumerName built
               | inl _ => ConsumerName built
               end
    | None => registry !! name = None
    end.
Proof.
  intros P H name.
  destruct (order_of_map configs order P) as [D M].
  destruct (createConsumers_inr order pool ∅ registry D H) as [I1 I2].
  destruct (configs !! name) as [cfg |] eqn:E.
  - apply M in E. destruct (I1 name cfg E) as (consumer & R & L).
    apply registered_inr in R as (built & B & Hc & Hn).
    exists built, consumer. auto.
  - rewrite I2; [apply lookup_empty |].
    intros Hin. apply list_elem_of_fmap in Hin as ([n cfg] & -> & Hin).
    apply M in Hin. simpl in E. congruence.
Qed.

(** X7. The registry that [createConsumers] fills mirrors the configuration: a
    name is registered exactly when it is configured, and what is registered
    under it is the consumer built from its configuration, renamed to
    [host-name] when the host name is available and left with its name
    otherwise. *)
Theorem registry_mirrors_configuration
    (configs : gmap string ConsumerConfig) order pool registry :
  order ≡ₚ map_to_list configs ->
  createConsumers order pool ∅ = inr registry ->
  forall name : string,
    match configs !! name with
    | Some consumerConfig =>
        exists built consumer : Consumer,
          NewConsumerFromConfig consumerConfig pool = inr built
          /\ registry !! name = Some consumer
          /\ consumerCore consumer = consumerCore built
          /\ ConsumerName consumer
             = match osHostname with
               | inr hostName => hostName +:+ "-" +:+ ConsumerName built
               | inl _ => ConsumerName built
               end
    | None => registry !! name = None
    end.
Proof. exact (registry_lookup configs order pool registry). Qed.

(** X8. The order in which the configurations are visited does not matter to a
    construction of the registry that succeeds: any other order succeeds
    too, with the same registry. *)
Theorem registry_ignores_order (configs : gmap string ConsumerConfig)
    order order' pool registry :
  order ≡ₚ map_to_list configs ->
  order' ≡ₚ map_to_list configs ->
  createConsumers order pool ∅ = inr registry ->
  createConsumers order' pool ∅ = inr registry.
Proof.
  intros P P' H.
  destruct (order_of_map configs order P) as [D M].
  destruct (order_of_map configs order' P') as [D' M'].
  destruct (createConsumers_inr order pool ∅ registry D H) as [I1 I2].
  destruct (createConsumers_succeeds order' pool ∅) as [registry' H'].
  { intros name cfg Hin. apply M', M in Hin.
    destruct (I1 name cfg Hin) as (c & R & _). eauto. }
  rewrite H'. f_equal.
  destruct (createConsumers_inr order' pool ∅ registry' D' H') as [J1 J2].
  apply map_eq. intros name.
  destruct (configs !! name) as [cfg |] eqn:E.
  - destruct (I1 name cfg (proj2 (M name cfg) E)) as (c & R & ->).
    destruct (J1 name cfg (proj2 (M' name cfg) E)) as (c' & R' & ->).
    congruence.
  - rewrite I2, J2; [reflexivity | |].
    + intros Hin. apply list_elem_of_fmap in Hin as ([n cfg] & -> & Hin).
      apply M' in Hin. simpl in E. congruence.
    + intros Hin. apply list_elem_of_fmap in Hin as ([n cfg] & -> & Hin).
      apply M in Hin. simpl in E. congruence.
Qed.

(** X9. [createConsumers] fails exactly when some configuration cannot be turned
    into a consumer; the failure it returns is that of the first such
    configuration in the order of the traversal, the ones before it having
    been built. *)
Theorem registry_fails_at_first_failure order : forall pool registry
    (err : failure),
  createConsumers order pool registry = inl err
  <-> exists (before : list (string * ConsumerConfig)) (name : string)
        (consumerConfig : ConsumerConfig)
        (after : list (string * ConsumerConfig)),
        order = before ++ (name, consumerConfig) :: after
        /\ Forall (fun entry =>
                     exists built : Consumer,
                       NewConsumerFromConfig entry.2 pool = inr built)
             before
        /\ NewConsumerFromConfig consumerConfig pool = inl err.
Proof.
  induction order as [| [n0 cfg0] rest IH]; intros pool registry err.
  - split; [discriminate |].
    intros (before & name & cfg & after & E & _). destruct before; discriminate.
  - rewrite createConsumers_cons.
    destruct (registered cfg0 pool) as [f | c0] eqn:E.
    + apply registered_inl in E. split.
      * intros [= <-]. exists [], n0, cfg0, rest. repeat split; [constructor | exact E].
      * intros (before & name & cfg & after & Eo & F & Ef).
        destruct before as [| b before]; simpl in Eo.
        -- injection Eo as <- <- <-. congruence.
        -- injection Eo as <- _. apply Forall_cons in F as [(built & Hb) _].
           simpl in Hb. congruence.
    + apply registered_inr in E as (built & Hb & _).
      rewrite IH. split.
      * intros (before & name & cfg & after & -> & F & Ef).
        exists ((n0, cfg0) :: before), name, cfg, after.
        repeat split; [constructor; [exists built; exact Hb | exact F] | exact Ef].
      * intros (before & name & cfg & after & Eo & F & Ef).
        destruct before as [| b before]; simpl in Eo.
        -- injection Eo as <- <- <-. congruence.
        -- injection Eo as <- ->. apply Forall_cons in F as [_ F].
           exists before, name, cfg, after. auto.
Qed.

End RegistryFacts.

Section ConstructionFacts.

Context {X : External} {C : Collaborators}.
Variable strconvQuote : string -> string.

Implicit Types (rs : RabbitService) (config : RabbitSeasoning)
  (order : list (string * ConsumerConfig)).

(** X10. In a service that has been built, [GetConsumer] finds every configured
    consumer, as the consumer built from its configuration, and answers any
    other name with an error that quotes the name: it never makes up a
    consumer. *)
Theorem configured_consumers_are_found config (passphrase salt : string)
    (handler : option Handler) order rs :
  (NewRabbitService config passphrase salt handler order).1 = inr rs ->
  order ≡ₚ map_to_list (ConsumerConfigs config) ->
  forall name : string,
    match ConsumerConfigs config !! name with
    | Some consumerConfig =>
        exists built consumer : Consumer,
          GetConsumer strconvQuote name rs = inr consumer
          /\ NewConsumerFromConfig consumerConfig (ServiceConnectionPool rs)
             = inr built
          /\ consumerCore consumer = consumerCore built
    | None =>
        GetConsumer strconvQuote name rs
        = inl (errorsNew
                 ("consumer " +:+ strconvQuote name +:+ " was not found"))
    end.
Proof.
  intros H P name.
  destruct (constructor_result _ _ _ _ _ _ H)
    as (pool & publisher & registry & _ & _ & Hr & _ & ->).
  pose proof (registry_lookup _ _ _ _ P Hr name) as M.
  unfold GetConsumer. simpl.
  destruct (ConsumerConfigs config !! name).
  - destruct M as (built & consumer & Hb & -> & Hc & _).
    exists built, consumer. auto.
  - rewrite M. reflexivity.
Qed.

(** X11. The construction fails exactly when the Connection Pool cannot be built,
    or else the Publisher, or else a consumer; it returns that collaborator's
    failure, and it has then started nothing: no goroutine, no key
    derivation, no auto-publishing. *)
Theorem construction_fails_with_first_failure config
    (passphrase salt : string) (handler : option Handler) order (err : error) :
  ((NewRabbitService config passphrase salt handler order).1 = inl err
   <-> exists f : failure,
         err = collaboratorError f
         /\ (NewConnectionPool (SeasoningPoolConfig config) = inl f
             \/ exists pool : ConnectionPool,
                  NewConnectionPool (SeasoningPoolConfig config) = inr pool
                  /\ (NewPublisherWithConfig config pool = inl f
                      \/ (exists publisher : Publisher,
                            NewPublisherWithConfig config pool = inr publisher)
                         /\ createConsumers order pool ∅ = inl f)))
  /\ ((NewRabbitService config passphrase salt handler order).1 = inl err ->
      (NewRabbitService config passphrase salt handler order).2 = []).
Proof.
  unfold NewRabbitService.
  destruct (NewConnectionPool _) as [f1 | pool]; simpl.
  { split; [| reflexivity]. split.
    - intros [= <-]. exists f1. auto.
    - intros (f & -> & [[= ->] | (pool & Hp & _)]); [reflexivity | discriminate]. }
  destruct (NewPublisherWithConfig config pool) as [f2 | publisher] eqn:E2;
    simpl.
  { split; [| reflexivity]. split.
    - intros [= <-]. exists f2. split; [reflexivity |]. right.
      exists pool. rewrite E2. auto.
    - intros (f & -> & [Hp | (pool' & [= <-] & [Hq | [(q & Hq) _]])]);
        [discriminate | | ]; rewrite E2 in Hq; congruence. }
  destruct (createConsumers order pool ∅) as [f3 | registry] eqn:E3; simpl.
  { split; [| reflexivity]. split.
    - intros [= <-]. exists f3. split; [reflexivity |]. right.
      exists pool. split; [reflexivity |]. right. rewrite E2, E3. eauto.
    - intros (f & -> & [Hp | (pool' & [= <-] & [Hq | [_ Hq]])]);
        [discriminate | rewrite E2 in Hq; discriminate |].
      rewrite E3 in Hq. congruence. }
  split; [| discriminate]. split; [discriminate |].
  intros (f & -> & [Hp | (pool' & [= <-] & [Hq | [_ Hq]])]);
    [discriminate | rewrite E2 in Hq; discriminate |].
  rewrite E3 in Hq. discriminate.
Qed.


End ConstructionFacts.

Section LoopFacts.

Context {X : External}.

Implicit Types (rs : RabbitService) (ticks : list Tick).

Lemma retryOrReport_success (r : PublishReceipt) (ch : Channels) :
  Success r = true -> retryOrReport r ch = ([], ch, Unblocked).
Proof. intros S. unfold retryOrReport. rewrite S. reflexivity. Qed.

Lemma retryOrReport_stuck (r : PublishReceipt) (ch : Channels) :
  Success r = false -> centralErrTaken ch = O ->
  retryOrReport r ch = ([], ch, BlockedOnCentralErr (diagnostic r)).
Proof.
  intros S T. unfold retryOrReport, diagnostic. rewrite S. simpl.
  destruct (FailedLetter r); unfold andThen, sendCentralErr; rewrite T;
    reflexivity.
Qed.

Lemma retryOrReport_taken (r : PublishReceipt) (ch : Channels) (n : nat) :
  Success r = false -> centralErrTaken ch = S n ->
  retryOrReport r ch
  = (CentralErrSend (diagnostic r)
     :: match FailedLetter r with
        | Some letter => [PublisherQueueLetter letter]
        | None => []
        end,
     {| centralErrTaken := n; shutdownSignalRoom := shutdownSignalRoom ch |},
     Unblocked).
Proof.
  intros S T. unfold retryOrReport, diagnostic. rewrite S. simpl.
  destruct (FailedLetter r); unfold andThen, sendCentralErr, emit; rewrite T;
    reflexivity.
Qed.

Lemma andThen_result (first next : Step) (ch ch' : Channels)
    (evs : list Event) :
  first ch = (evs, ch', Unblocked) ->
  andThen first next ch
  = (evs ++ (next ch').1.1, (next ch').1.2, (next ch').2).
Proof.
  intros E. unfold andThen. rewrite E.
  destruct (next ch') as [[evs' ch''] progress]. reflexivity.
Qed.

Lemma andThen_stuck (first next : Step) (ch ch' : Channels)
    (evs : list Event) (err : error) :
  first ch = (evs, ch', BlockedOnCentralErr err) ->
  andThen first next ch = (evs, ch', BlockedOnCentralErr err).
Proof. intros E. unfold andThen. rewrite E. reflexivity. Qed.

(** X13. Over a whole run of the default receipt loop the failed receipts are
    dealt with in the order in which they were taken, each as far as the
    readers of the central error stream allow: when they take [k] errors, the
    stream gets the diagnostics of the first [k] failed receipts and the
    letters queued again are the letters that these [k] receipts carry; the
    loop then is stuck in the send of the diagnostic of the next failed
    receipt, if there is one, and that receipt's letter is not queued.
    Successful receipts leave no trace, and the loop never publishes by
    itself. *)
Theorem default_policy_over_a_run rs ticks (ch : Channels) :
  omap requeuedLetter (processPublishReceipts rs ticks ch).1.1
  = omap FailedLetter
      (take (centralErrTaken ch)
         (filter (fun r => Success r = false) (drained ticks)))
  /\ omap centralError (processPublishReceipts rs ticks ch).1.1
     = map diagnostic
         (take (centralErrTaken ch)
            (filter (fun r => Success r = false) (drained ticks)))
  /\ (processPublishReceipts rs ticks ch).2
     = match filter (fun r => Success r = false) (drained ticks)
             !! centralErrTaken ch with
       | Some r => BlockedOnCentralErr (diagnostic r)
       | None => Unblocked
       end
  /\ omap handedLetter (processPublishReceipts rs ticks ch).1.1 = [].
Proof.
  revert ch.
  induction ticks as [| t rest IH]; intros ch.
  { cbn [processPublishReceipts drained]. rewrite filter_nil, take_nil.
    auto. }
  cbn [processPublishReceipts drained].
  destruct (seesShutdown t).
  { rewrite filter_nil, take_nil. auto. }
  destruct (polled t) as [r |].
  2: { rewrite (andThen_result _ _ ch ch [Sleep (monitorSleepInterval rs)])
         by reflexivity.
       cbn [fst snd]. rewrite !omap_app.
       destruct (IH ch) as (IH1 & IH2 & IH3 & IH4).
       rewrite IH1, IH2, IH3, IH4. auto. }
  destruct (Success r) eqn:Es.
  { rewrite (andThen_result _ _ ch ch []) by (apply retryOrReport_success, Es).
    cbn [fst snd app].
    rewrite filter_cons_False by (rewrite Es; discriminate).
    exact (IH ch). }
  rewrite filter_cons_True by exact Es.
  destruct (centralErrTaken ch) as [| n] eqn:T.
  { rewrite (andThen_stuck _ _ ch ch [] (diagnostic r))
      by (apply retryOrReport_stuck; assumption).
    auto. }
  rewrite (andThen_result _ _ ch _ _ (retryOrReport_taken r ch n Es T)).
  cbn [fst snd]. rewrite !omap_app.
  destruct (IH {| centralErrTaken := n;
                  shutdownSignalRoom := shutdownSignalRoom ch |})
    as (IH1 & IH2 & IH3 & IH4).
  rewrite IH1, IH2, IH3, IH4. cbn [centralErrTaken].
  destruct (FailedLetter r) eqn:Ef; cbn; rewrite ?Ef; auto.
Qed.

(** X14. Once an iteration has read the shutdown flag as set, the receipt loops
    are over: no receipt that comes later is taken, handled, retried or
    reported. *)
Theorem receipts_after_shutdown_are_left (h : Handler) rs
    (before after : list Tick) (t : Tick) :
  seesShutdown t = true ->
  (forall ch : Channels,
     processPublishReceipts rs (before ++ t :: after) ch
     = processPublishReceipts rs before ch)
  /\ invokeProcessPublishReceipts h rs (before ++ t :: after)
     = invokeProcessPublishReceipts h rs before
  /\ drained (before ++ t :: after) = drained before.
Proof.
  intros St.
  induction before as [| b before (IH1 & IH2 & IH3)]; simpl.
  - rewrite St. auto.
  - destruct (seesShutdown b); [auto |].
    destruct (polled b); rewrite IH2, IH3;
      (split; [| auto]); intros ch; unfold andThen;
      [destruct (retryOrReport _ ch) as [[evs ch'] [| |]]
      | cbn [emit]]; rewrite ?IH1; reflexivity.
Qed.

(** X15. The publisher-error loop forwards every error it takes, in order, to the
    central error stream; apart from that it only sleeps. *)
Theorem publisher_errors_are_forwarded rs (ticks : list ErrorTick) :
  omap centralError (collectAutoPublisherErrors rs ticks) = polledErrors ticks
  /\ Forall (fun ev =>
               (exists err, ev = CentralErrSend err)
               \/ ev = Sleep (monitorSleepInterval rs))
       (collectAutoPublisherErrors rs ticks).
Proof.
  induction ticks as [| t rest [IH1 IH2]]; [split; constructor |].
  simpl. destruct (errSeesShutdown t); [split; constructor |].
  destruct (errPolled t) as [err |]; simpl.
  - split; [f_equal; exact IH1 | constructor; eauto].
  - split; [exact IH1 | constructor; auto].
Qed.

Lemma drainConsumer_polled (ticks : list ErrorTick) :
  polledErrors ticks
  = omap centralError (drainConsumer ticks).1.1
    ++ match (drainConsumer ticks).2 with
       | SourceEmpty => polledErrors (drainConsumer ticks).1.2
       | _ => []
       end.
Proof.
  induction ticks as [| t rest IH]; [reflexivity |].
  simpl. destruct (errSeesShutdown t); [reflexivity |].
  destruct (errPolled t) as [err |]; [| reflexivity].
  destruct (drainConsumer rest) as [[evs unread] how].
  simpl in *. f_equal. exact IH.
Qed.

Lemma sweepConsumers_polled (order : list (string * Consumer)) :
  forall ticks : list ErrorTick,
  polledErrors ticks
  = omap centralError (sweepConsumers order ticks).1.1
    ++ match (sweepConsumers order ticks).2 with
       | SourceEmpty => polledErrors (sweepConsumers order ticks).1.2
       | _ => []
       end.
Proof.
  induction order as [| entry others IH]; intros ticks; [reflexivity |].
  simpl. pose proof (drainConsumer_polled ticks) as D.
  destruct (drainConsumer ticks) as [[evs unread] how].
  destruct how; simpl in *; try exact D.
  specialize (IH unread).
  destruct (sweepConsumers others unread) as [[evs' unread'] how'].
  simpl in *. rewrite omap_app, <- app_assoc, <- IH. exact D.
Qed.

(** X16. The consumer-error loop forwards errors in the order in which it takes
    them and invents none: what it has sent to the central error stream is
    always an initial part of what its iterations took before the shutdown
    flag was read as set. *)
Theorem consumer_errors_are_forwarded rs
    (sweeps : list (list (string * Consumer))) :
  forall ticks : list ErrorTick,
  omap centralError (collectConsumerErrors rs sweeps ticks).1
  `prefix_of` polledErrors ticks.
Proof.
  induction sweeps as [| order later IH]; intros ticks.
  - apply prefix_nil.
  - simpl. pose proof (sweepConsumers_polled order ticks) as S.
    destruct (sweepConsumers order ticks) as [[evs unread] how].
    destruct how; simpl in *.
    + rewrite S, app_nil_r. reflexivity.
    + specialize (IH unread).
      destruct (collectConsumerErrors rs later unread) as [evs' returned].
      simpl in *. rewrite omap_app. simpl. rewrite S.
      apply prefix_app, IH.
    + rewrite S, app_nil_r. reflexivity.
Qed.



End LoopFacts.

Section RenderingFacts.

Lemma fmt_d_inj (a b : Z) : 0 <= a -> 0 <= b -> fmt_d a = fmt_d b -> a = b.
Proof.
  unfold fmt_d. intros Ha Hb E.
  assert (Na : forall n : N, N.to_uint n <> Decimal.Nil).
  { intros [| q]; [discriminate | apply DecimalPos.Unsigned.to_uint_nonnil]. }
  pose proof (NilZero.usu _ (Na (Z.to_N a))) as Ua.
  pose proof (NilZero.usu _ (Na (Z.to_N b))) as Ub.
  rewrite E, Ub in Ua. injection Ua as Ua.
  apply DecimalN.Unsigned.to_uint_inj in Ua. lia.
Qed.

Lemma digits_split (d1 : string) : forall (d2 : string) (c : Ascii.ascii)
    (s1 s2 : string),
  allDigits d1 = true -> allDigits d2 = true -> isDigit c = false ->
  d1 +:+ String c s1 = d2 +:+ String c s2 -> d1 = d2 /\ s1 = s2.
Proof.
  induction d1 as [| a d1 IH]; intros [| b d2] c s1 s2 D1 D2 Nc E; simpl in *.
  - injection E as ->. auto.
  - injection E as -> _. apply andb_true_iff in D2 as [D2 _]. congruence.
  - injection E as -> _. apply andb_true_iff in D1 as [D1 _]. congruence.
  - injection E as -> E.
    apply andb_true_iff in D1 as [_ D1]. apply andb_true_iff in D2 as [_ D2].
    destruct (IH _ _ _ _ D1 D2 Nc E) as [-> ->]. auto.
Qed.

Lemma append_cancel_l (p s t : string) : p +:+ s = p +:+ t -> s = t.
Proof.
  induction p as [| a p IH]; simpl; [auto |]. intros [= E]. auto.
Qed.

(** The number rendered after a prefix and before a text that starts with a
    character that is no digit can be read back. *)
Lemma tagged_text_inj (p : string) (c : Ascii.ascii) (s1 s2 : string)
    (a b : Z) :
  0 <= a -> 0 <= b -> isDigit c = false ->
  p +:+ fmt_d a +:+ String c s1 = p +:+ fmt_d b +:+ String c s2 ->
  a = b /\ s1 = s2.
Proof.
  intros Ha Hb Nc E. apply append_cancel_l in E.
  apply digits_split in E as [E ->]; auto using fmt_d_digits.
  split; [apply fmt_d_inj; assumption | reflexivity].
Qed.

Context {X : External}.

Lemma retryOrReport_offered (r : PublishReceipt) (ch : Channels) :
  Success r = false -> offered (retryOrReport r ch) = [diagnostic r].
Proof.
  intros S. unfold retryOrReport, diagnostic, offered. rewrite S. simpl.
  destruct (FailedLetter r); unfold andThen, sendCentralErr, emit;
    destruct (centralErrTaken ch); reflexivity.
Qed.

(** X19. The diagnostic that the default policy sends for a failed receipt tells
    which letter it is about and whether a retry was queued: two failed
    receipts with the same diagnostic have the same LetterID and both carry
    a letter or both lack one. This holds whether the diagnostic was taken
    from the central error stream or the send is still waiting for a
    reader. *)
Theorem diagnostics_identify_the_letter (r r' : PublishReceipt)
    (ch ch' : Channels) :
  0 <= ReceiptLetterID r -> 0 <= ReceiptLetterID r' ->
  Success r = false -> Success r' = false ->
  offered (retryOrReport r ch) = offered (retryOrReport r' ch') ->
  ReceiptLetterID r = ReceiptLetterID r'
  /\ (FailedLetter r = None <-> FailedLetter r' = None).
Proof.
  intros Hr Hr' S S' E.
  rewrite !retryOrReport_offered in E by assumption.
  injection E as E. unfold diagnostic in E.
  destruct (FailedLetter r), (FailedLetter r').
  - unfold fmtErrorf in E.
    apply (f_equal errorString) in E. simpl errorString in E.
    apply (tagged_text_inj "failed to publish letter " "."%char
             ".. retrying" ".. retrying") in E as [E _]; auto.
    split; [exact E | split; discriminate].
  - exfalso. exact (diagnostics_differ _ _ E).
  - exfalso. symmetry in E. exact (diagnostics_differ _ _ E).
  - unfold fmtErrorf in E.
    apply (f_equal errorString) in E. simpl errorString in E.
    apply (tagged_text_inj "failed to publish a letter " " "%char
             "and unable to retry as a copy of the letter was not received"
             "and unable to retry as a copy of the letter was not received")
      in E as [E _]; auto.
Qed.

End RenderingFacts.

(** X20. [ToString] fails, on a nil dereference, exactly for a failed receipt
    that carries no error. Otherwise the text it gives tells the outcome and
    the letter: two receipts rendered alike agree on [Success] and on the
    LetterID. *)
Theorem receipt_text_tells_letter_and_outcome (r r' : PublishReceipt)
    (text : string) :
  (ToString r = None <-> Success r = false /\ Error r = None)
  /\ (0 <= ReceiptLetterID r -> 0 <= ReceiptLetterID r' ->
      ToString r = Some text -> ToString r' = Some text ->
      ReceiptLetterID r = ReceiptLetterID r' /\ Success r = Success r').
Proof.
  unfold ToString. split.
  - destruct (Success r); [split; [discriminate | intros [? _]; discriminate] |].
    destruct (Error r); split; try discriminate; auto.
    intros [_ ?]; discriminate.
  - intros Hr Hr' T T'.
    destruct (Success r); [| destruct (Error r) as [e |]; [| discriminate]];
      (destruct (Success r');
       [| destruct (Error r') as [e' |]; [| discriminate]]);
      injection T as T; injection T' as T'; rewrite <- T in T'; clear T.
    + apply (tagged_text_inj "[LetterID: " "]"%char
               (" - Publish successful." +:+ crlf)
               (" - Publish successful." +:+ crlf)) in T' as [E _]; auto.
    + apply (tagged_text_inj "[LetterID: " "]"%char
               (" - Publish failed." +:+ crlf +:+ "Error: "
                +:+ errorString e' +:+ crlf)
               (" - Publish successful." +:+ crlf)) in T' as [_ E]; auto.
      discriminate.
    + apply (tagged_text_inj "[LetterID: " "]"%char
               (" - Publish successful." +:+ crlf)
               (" - Publish failed." +:+ crlf +:+ "Error: "
                +:+ errorString e +:+ crlf)) in T' as [_ E]; auto.
      discriminate.
    + apply (tagged_text_inj "[LetterID: " "]"%char
               (" - Publish failed." +:+ crlf +:+ "Error: "
                +:+ errorString e' +:+ crlf)
               (" - Publish failed." +:+ crlf +:+ "Error: "
                +:+ errorString e +:+ crlf)) in T' as [E _]; auto.
Qed.

Section MoreMessageFacts.

Context {Channel : Type}.
Variable answer :
  list (Channel * ChannelCall) -> Channel -> ChannelCall -> option failure.

Implicit Types (msg : @ReceivedMessage Channel)
  (history : list (Channel * ChannelCall)).

Lemma settle_delegates (how : Settlement) msg history (ch : Channel) :
  IsAckable msg = true -> amqpChan msg = Some ch ->
  settle answer how msg history
  = (collaboratorError
       <$> answer history ch (callOf how (deliveryTag msg)),
     history ++ [(ch, callOf how (deliveryTag msg))]).
Proof.
  intros Ha Hc.
  destruct how; simpl; unfold Acknowledge, Nack, Reject, onChannel;
    rewrite Ha, Hc; reflexivity.
Qed.

Lemma settle_refuses (how : Settlement) msg history :
  IsAckable msg = false \/ amqpChan msg = None ->
  exists text, settle answer how msg history = (Some (errorsNew text), history).
Proof.
  intros H.
  destruct how; simpl; unfold Acknowledge, Nack, Reject;
    destruct H as [-> | ->]; simpl; eauto;
    destruct (IsAckable msg); simpl; eauto.
Qed.

(** X21. However many times, and in whatever ways, one message is settled, each
    settlement of an ackable message with a channel reaches that channel,
    with the message's own delivery tag and never for several deliveries at
    once; on a message that is not ackable or has no channel, none reaches a
    channel and each returns an error of its own. *)
Theorem every_settlement_reaches_the_channel (hows : list Settlement) msg :
  forall history,
  (IsAckable msg = false \/ amqpChan msg = None ->
   (settleAll answer hows msg history).2 = history
   /\ length (settleAll answer hows msg history).1 = length hows
   /\ Forall (fun result => exists text, result = Some (errorsNew text))
        (settleAll answer hows msg history).1)
  /\ (forall ch : Channel,
        IsAckable msg = true -> amqpChan msg = Some ch ->
        (settleAll answer hows msg history).2
        = history ++ map (fun how => (ch, callOf how (deliveryTag msg))) hows
        /\ length (settleAll answer hows msg history).1 = length hows).
Proof.
  induction hows as [| how rest IH]; intros history.
  - simpl. split; [intros _; repeat split; constructor |].
    intros ch _ _. rewrite app_nil_r. auto.
  - simpl. split.
    + intros H. destruct (settle_refuses how msg history H) as [text ->].
      destruct (IH history) as [I _]. destruct (I H) as (I1 & I2 & I3).
      destruct (settleAll answer rest msg history) as [errs history2].
      simpl in *. repeat split; [exact I1 | lia |].
      constructor; [eauto | exact I3].
    + intros ch Ha Hc. rewrite (settle_delegates how msg history ch Ha Hc).
      destruct (IH (history ++ [(ch, callOf how (deliveryTag msg))]))
        as [_ I].
      destruct (I ch Ha Hc) as [I1 I2].
      destruct (settleAll answer rest msg _) as [errs history2].
      simpl in *. rewrite I1, <- app_assoc. split; [reflexivity | lia].
Qed.

(** X22. Without a delivery no message is made. A message made from a delivery,
    ackable and with its channel, is settled on that channel under the
    delivery's tag; made not ackable, it is never settled on any channel. *)
Theorem message_from_delivery_settles_its_delivery (how : Settlement)
    (ch : Channel) (d : Delivery) (isAckable : bool) history :
  NewMessageFromDelivery isAckable (Some ch) None
  = inl (errorsNew "No delivery available")
  /\ (exists msg,
        NewMessageFromDelivery true (Some ch) (Some d) = inr msg
        /\ settle answer how msg history
           = (collaboratorError
                <$> answer history ch (callOf how (DeliveryTag d)),
              history ++ [(ch, callOf how (DeliveryTag d))]))
  /\ (exists msg,
        NewMessageFromDelivery false (Some ch) (Some d) = inr msg
        /\ (settle answer how msg history).2 = history
        /\ exists text, (settle answer how msg history).1
                        = Some (errorsNew text)).
Proof.
  split; [reflexivity |]. split.
  - eexists. split; [reflexivity |].
    apply settle_delegates; reflexivity.
  - eexists. split; [reflexivity |].
    edestruct (settle_refuses how) as [text ->]; [left; reflexivity |].
    simpl. eauto.
Qed.

End MoreMessageFacts.

(** * The further properties on the concrete collaborators *)

Lemma wrapped_body_names_its_letter_witness :
  CreateWrappedPayload (Collaborators := demoCollaborators) (Some "hello") 5
    "meta" tt (demoEncryption false)
  = inr (String.list_byte_of_string "5metahello").
Proof.
  exact (proj1 (wrapped_body_names_its_letter (C := demoCollaborators)
                  (Some "hello") "orders" "new" "meta" (demoService 5)
                  (newLetter 5 (String.list_byte_of_string "5metahello")
                     "orders" "new")
                  (or_introl (or_introl eq_refl)))).
Defined.

Lemma sequential_ids_increase_witness :
  map LetterID
    (omap handedLetter
       (callsInTurn (C := demoCollaborators)
          [demoCall "a"; demoCall "unserializable"; demoCall "b"]
          (demoService 5)).2)
  = [5; 7]
  /\ StronglySorted Z.lt
       (map LetterID
          (omap handedLetter
             (callsInTurn (C := demoCollaborators)
                [demoCall "a"; demoCall "unserializable"; demoCall "b"]
                (demoService 5)).2)).
Proof.
  split; [reflexivity |].
  refine (proj1 (sequential_ids_increase (C := demoCollaborators)
                   [demoCall "a"; demoCall "unserializable"; demoCall "b"]
                   (demoService 5) _ _)).
  - simpl. lia.
  - vm_compute. discriminate.
Defined.

Lemma counter_counts_reservations_witness :
  letterCount
    (callsInTurn (C := demoCollaborators)
       [demoCall "a"; demoCall "unserializable";
        @Build_Call demoTypes ViaPublish None "orders" "new" false EmptyString;
        demoCall "b"]
       (demoService 5)).1.2
  = 8.
Proof.
  pose proof (counter_counts_reservations (C := demoCollaborators)
                [demoCall "a"; demoCall "unserializable";
                 @Build_Call demoTypes ViaPublish None "orders" "new" false
                   EmptyString;
                 demoCall "b"]
                (demoService 5)) as H.
  destruct H as [H _].
  - split; [simpl; lia | vm_compute; reflexivity].
  - rewrite H. reflexivity.
Defined.

Lemma own_ids_increase_witness :
  idsOf 1
    (handedIDs
       (trace
          (run (C := demoCollaborators) [0; 1; 0; 1; 0; 1; 1; 1; 1]%nat
             ([newCaller [demoCall "first"];
               newCaller [demoCall "second"; demoCall "third"]],
              {| service := demoService 0; trace := [] |})).2))
  = [0; 2]
  /\ StronglySorted Z.lt
       (idsOf 1
          (handedIDs
             (trace
                (run (C := demoCollaborators) [0; 1; 0; 1; 0; 1; 1; 1; 1]%nat
                   (map newCaller
                      [[demoCall "first"];
                       [demoCall "second"; demoCall "third"]],
                    {| service := demoService 0; trace := [] |})).2))).
Proof.
  split; [vm_compute; reflexivity |].
  apply (own_ids_increase (C := demoCollaborators)
           [0; 1; 0; 1; 0; 1; 1; 1; 1]%nat
           [[demoCall "first"]; [demoCall "second"; demoCall "third"]]
           (demoService 0) 1%nat).
  - simpl. lia.
  - vm_compute. reflexivity.
Defined.

Lemma lost_update_witness :
  handedIDs
    (trace
       (run (C := demoCollaborators) [0; 1; 0; 1; 0; 1]%nat
          ([newCaller [demoCall "first"]; newCaller [demoCall "second"]],
           {| service := demoService 41; trace := [] |})).2)
  = [(0%nat, 41); (1%nat, 41)]
  /\ letterCount
       (service
          (run (C := demoCollaborators) [0; 1; 0; 1; 0; 1]%nat
             ([newCaller [demoCall "first"]; newCaller [demoCall "second"]],
              {| service := demoService 41; trace := [] |})).2)
     = 43.
Proof.
  pose proof (lost_update (C := demoCollaborators) (demoCall "first")
                (demoCall "second") (demoService 41)
                (String.list_byte_of_string "first")
                (String.list_byte_of_string "second")) as H.
  cbv zeta in H.
  destruct H as [H1 H2].
  - intros [H | [H _]]; discriminate.
  - intros [H | [H _]]; discriminate.
  - reflexivity.
  - reflexivity.
  - split; [exact H1 | exact H2].
Defined.

Lemma demoOrder_of_map :
  demoOrder ≡ₚ map_to_list (ConsumerConfigs (demoConfig false))
  /\ rev demoOrder ≡ₚ map_to_list (ConsumerConfigs (demoConfig false)).
Proof.
  vm_compute. split; first [apply Permutation_refl | apply perm_swap].
Defined.

Lemma registry_mirrors_configuration_witness :
  exists built consumer : @Consumer demoTypes,
    NewConsumerFromConfig (Collaborators := demoNamedHost)
      ("stuck" : @ConsumerConfig demoTypes) tt = inr built
    /\ ({[ "audit" := demoConsumer "host7-stuck";
           "billing" := demoConsumer "host7-invoices" ]}
          : gmap string (@Consumer demoTypes)) !! "audit"
       = Some consumer
    /\ consumerCore consumer = consumerCore built
    /\ ConsumerName consumer = "host7" +:+ "-" +:+ ConsumerName built.
Proof.
  assert (H : createConsumers (C := demoNamedHost) demoOrder tt ∅
              = inr ({[ "audit" := demoConsumer "host7-stuck";
                        "billing" := demoConsumer "host7-invoices" ]}
                       : gmap string (@Consumer demoTypes)))
    by (vm_compute; reflexivity).
  exact (registry_mirrors_configuration (C := demoNamedHost)
           (ConsumerConfigs (demoConfig false)) demoOrder tt _
           (proj1 demoOrder_of_map) H "audit").
Defined.

Lemma registry_ignores_order_witness :
  createConsumers (C := demoNamedHost) (rev demoOrder) tt ∅
  = inr ({[ "audit" := demoConsumer "host7-stuck";
            "billing" := demoConsumer "host7-invoices" ]}
           : gmap string (@Consumer demoTypes)).
Proof.
  apply (registry_ignores_order (C := demoNamedHost)
           (ConsumerConfigs (demoConfig false)) demoOrder (rev demoOrder) tt).
  - exact (proj1 demoOrder_of_map).
  - exact (proj2 demoOrder_of_map).
  - vm_compute. reflexivity.
Defined.

Lemma configured_consumers_are_found_witness :
  (exists built consumer : @Consumer demoTypes,
     GetConsumer demoQuote "billing" (demoService 0) = inr consumer
     /\ NewConsumerFromConfig (Collaborators := demoCollaborators)
          ("invoices" : @ConsumerConfig demoTypes) tt = inr built
     /\ consumerCore consumer = consumerCore built)
  /\ GetConsumer demoQuote "nobody" (demoService 0)
     = inl (errorsNew ("consumer " +:+ demoQuote "nobody" +:+ " was not found")).
Proof.
  assert (H : (NewRabbitService (C := demoCollaborators) (demoConfig false)
                 EmptyString EmptyString None demoOrder).1
              = inr (demoService 0))
    by (vm_compute; reflexivity).
  split.
  - exact (configured_consumers_are_found (C := demoCollaborators) demoQuote
             (demoConfig false) EmptyString EmptyString None demoOrder
             (demoService 0) H (proj1 demoOrder_of_map) "billing").
  - exact (configured_consumers_are_found (C := demoCollaborators) demoQuote
             (demoConfig false) EmptyString EmptyString None demoOrder
             (demoService 0) H (proj1 demoOrder_of_map) "nobody").
Defined.


Lemma receipts_after_shutdown_are_left_witness :
  processPublishReceipts (demoService 0)
    ([ {| seesShutdown := false;
          polled := Some (demoFailedReceipt 3 None) |} ]
     ++ {| seesShutdown := true; polled := None |}
        :: [ {| seesShutdown := false;
                polled := Some (demoFailedReceipt 4 None) |} ])
    (demoReaders 2)
  = processPublishReceipts (demoService 0)
      [ {| seesShutdown := false;
           polled := Some (demoFailedReceipt 3 None) |} ]
      (demoReaders 2).
Proof.
  exact (proj1 (receipts_after_shutdown_are_left (7%nat : @Handler demoTypes)
                  (demoService 0)
                  [ {| seesShutdown := false;
                       polled := Some (demoFailedReceipt 3 None) |} ]
                  [ {| seesShutdown := false;
                       polled := Some (demoFailedReceipt 4 None) |} ]
                  {| seesShutdown := true; polled := None |}
                  eq_refl)
           (demoReaders 2)).
Defined.


Lemma diagnostics_identify_the_letter_witness :
  ReceiptLetterID (demoFailedReceipt 7 (Some (newLetter 7 [] "orders" "new")))
  = ReceiptLetterID (demoFailedReceipt 7 (Some (newLetter 7 [] "bills" "due"))).
Proof.
  refine (proj1 (diagnostics_identify_the_letter (X := demoTypes)
                   (demoFailedReceipt 7 (Some (newLetter 7 [] "orders" "new")))
                   (demoFailedReceipt 7 (Some (newLetter 7 [] "bills" "due")))
                   (demoReaders 1) demoNoReader
                   _ _ eq_refl eq_refl eq_refl));
    simpl; lia.
Defined.
